(** * heic2jpg: a shallow embedding of [heic2jpg.py]

    The program walks an input folder, maps every HEIC/HEIF file to a
    mirrored [.jpg] path below an output folder and converts the files one
    by one.  The embedding follows the Python source function by function:

    - paths are [pathlib] paths, kept as the list of their components;
    - the filesystem is a finite map from paths to nodes, threaded through
      a state-and-exception monad together with the lines printed so far;
    - the imaging libraries (Pillow, pillow-heif, piexif) and the console
      behind [print] are black boxes, collected in a record of operations
      that every theorem quantifies over. *)

From Stdlib Require Import ZArith Ascii String List Lia DecimalString.
From stdpp Require Import base option list strings gmap fin_maps.

Local Open Scope string_scope.
Local Open Scope Z_scope.

(** ** Exceptions

    Only classes derived from Python's [Exception] are modelled: these are
    the ones an [except Exception] clause catches.  Interrupts such as
    [KeyboardInterrupt] are outside the embedding. *)

Abbreviation Path := (list string).
Abbreviation bytes := (list Byte.byte).

#[global] Instance byte_eq_decision : EqDecision Byte.byte := Byte.byte_eq_dec.

Inductive exn : Type :=
  | ValueError (msg : string)
  | RuntimeError (msg : string)
  | FileNotFoundError (msg : string)
  | FileExistsError (msg : string)
  | NotADirectoryError (msg : string)
  | IsADirectoryError (msg : string)
  | UnicodeEncodeError (msg : string)
  | LibraryError (msg : string).

(** [str(e)], the text that ends up in an ERROR line. *)
Definition exn_str (e : exn) : string :=
  match e with
  | ValueError m | RuntimeError m | FileNotFoundError m | FileExistsError m
  | NotADirectoryError m | IsADirectoryError m | UnicodeEncodeError m
  | LibraryError m => m
  end.

Inductive result (A : Type) : Type :=
  | Ok (a : A)
  | Raise (e : exn).
Arguments Ok {A} a.
Arguments Raise {A} e.

Definition rbind {A B} (r : result A) (k : A -> result B) : result B :=
  match r with
  | Ok a => k a
  | Raise e => Raise e
  end.

(** [try: r  except Exception as e: h e] on a pure computation. *)
Definition rtry {A} (r : result A) (h : exn -> result A) : result A :=
  match r with
  | Ok a => Ok a
  | Raise e => h e
  end.

(** ** pathlib: names, suffixes, joins *)

(** [str(path)]: the components joined with the separator. *)
Fixpoint path_str (p : Path) : string :=
  match p with
  | [] => ""
  | c :: p' => "/" ++ c ++ path_str p'
  end.

(** The operating system's errors, worded as Python words them. *)
Definition ENOENT (p : Path) : exn :=
  FileNotFoundError ("[Errno 2] No such file or directory: '" ++ path_str p ++ "'").
Definition EEXIST (p : Path) : exn :=
  FileExistsError ("[Errno 17] File exists: '" ++ path_str p ++ "'").
Definition ENOTDIR (p : Path) : exn :=
  NotADirectoryError ("[Errno 20] Not a directory: '" ++ path_str p ++ "'").
Definition EISDIR (p : Path) : exn :=
  IsADirectoryError ("[Errno 21] Is a directory: '" ++ path_str p ++ "'").

(** [path.name]: the final component, empty for the root. *)
Definition name (p : Path) : string := List.last p "".

(** [path.parent]; the root is its own parent. *)
Definition parent (p : Path) : Path := List.removelast p.

(** [s.rfind('.')], [None] standing for Python's [-1]. *)
Fixpoint rfind_dot (s : string) : option nat :=
  match s with
  | EmptyString => None
  | String c s' =>
      match rfind_dot s' with
      | Some i => Some (S i)
      | None => if Ascii.eqb c "." then Some 0%nat else None
      end
  end.

(** The suffix of a file name, as [PurePath.suffix] computes it:
    [i = name.rfind('.')], and [name[i:]] when [0 < i < len(name) - 1]. *)
Definition name_suffix (n : string) : string :=
  match rfind_dot n with
  | Some i =>
      if ((0 <? i) && (i <? String.length n - 1))%nat
      then String.substring i (String.length n - i) n
      else ""
  | None => ""
  end.

Definition suffix (p : Path) : string := name_suffix (name p).

(** The new file name [with_suffix] builds: [name + suffix] when there is
    no old suffix, [name[:-len(old_suffix)] + suffix] otherwise. *)
Definition name_with_suffix (n sfx : string) : string :=
  let old_suffix := name_suffix n in
  if decide (old_suffix = "")
  then n ++ sfx
  else String.substring 0 (String.length n - String.length old_suffix) n ++ sfx.

Fixpoint has_sep (s : string) : bool :=
  match s with
  | EmptyString => false
  | String c s' => Ascii.eqb c "/" || has_sep s'
  end.

Definition valid_suffix (sfx : string) : bool :=
  negb (has_sep sfx)
  && negb (negb (bool_decide (sfx = "")) && negb (String.prefix "." sfx)
           || bool_decide (sfx = ".")).

(** [PurePath.with_suffix]. *)
Definition with_suffix (p : Path) (sfx : string) : result Path :=
  if negb (valid_suffix sfx)
  then Raise (ValueError ("Invalid suffix '" ++ sfx ++ "'"))
  else if decide (name p = "")
  then Raise (ValueError ("'" ++ path_str p ++ "' has an empty name"))
  else Ok (parent p ++ [name_with_suffix (name p) sfx])%list.

(** The components of [p] below [root], when [root] is a leading part. *)
Fixpoint strip_root (root p : Path) : option Path :=
  match root with
  | [] => Some p
  | r :: root' =>
      match p with
      | [] => None
      | c :: p' => if decide (r = c) then strip_root root' p' else None
      end
  end.

(** [PurePath.relative_to]: purely lexical, [ValueError] when [root] is
    not a leading part of [p]. *)
Definition relative_to (p root : Path) : result Path :=
  match strip_root root p with
  | Some rel => Ok rel
  | None =>
      Raise (ValueError ("'" ++ path_str p ++ "' is not in the subpath of '"
                         ++ path_str root ++ "'"))
  end.

(** [root / rel] for a relative right operand. *)
Definition joinpath (root rel : Path) : Path := (root ++ rel)%list.

(** ** The program's pure part *)

(** [HEIC_EXTS = {".heic", ".heif", ".HEIC", ".HEIF"}] *)
Definition HEIC_EXTS : list string := [".heic"; ".heif"; ".HEIC"; ".HEIF"].

Definition in_HEIC_EXTS (s : string) : bool := bool_decide (s ∈ HEIC_EXTS).

(** [make_output_path]:
    [rel = src.relative_to(input_root)];
    [return (output_root / rel).with_suffix(".jpg")]. *)
Definition make_output_path (src input_root output_root : Path) : result Path :=
  rbind (relative_to src input_root) (fun rel =>
  with_suffix (joinpath output_root rel) ".jpg").

(** The quality handed to [run_batch] by the entry point:
    [max(1, min(100, int(args.quality)))]. *)
Definition clamp_quality (q : Z) : Z := Z.max 1 (Z.min 100 q).

(** ** The filesystem and the program state *)

Inductive node : Type :=
  | File (data : bytes)
  | Dir.

(** What the program can observe and change: the entries of the
    filesystem and the lines written by [print]. *)
Record State : Type := mkState {
  fs : gmap Path node;
  stdout : list string
}.

Definition set_fs (s : State) (m : gmap Path node) : State :=
  mkState m (stdout s).

(** Statements run in a state; an exception leaves the effects made before
    it was raised in place. *)
Definition M (A : Type) : Type := State -> State * result A.

Definition ret {A} (a : A) : M A := fun s => (s, Ok a).
Definition raise {A} (e : exn) : M A := fun s => (s, Raise e).
Definition lift {A} (r : result A) : M A := fun s => (s, r).

Definition bind {A B} (m : M A) (k : A -> M B) : M B :=
  fun s =>
    match m s with
    | (s', Ok a) => k a s'
    | (s', Raise e) => (s', Raise e)
    end.

(** [try: m  except Exception as e: h e] *)
Definition try_except {A} (m : M A) (h : exn -> M A) : M A :=
  fun s =>
    match m s with
    | (s', Ok a) => (s', Ok a)
    | (s', Raise e) => h e s'
    end.

Declare Scope prog_scope.
Delimit Scope prog_scope with prog.
Notation "x <- m ;; k" := (bind m (fun x => k))
  (at level 20, m at level 99, k at level 200, only parsing) : prog_scope.
Notation "m ;; k" := (bind m (fun _ => k))
  (at level 100, k at level 200, only parsing, right associativity) : prog_scope.
Local Open Scope prog_scope.

(** Path resolution as the operating system does it: component by
    component from the root, through directories only.  [whole] is the
    path the failing call names in its error. *)
Fixpoint resolve_from (m : gmap Path node) (whole cur : Path) (n : node)
    (rest : list string) : result node :=
  match rest with
  | [] => Ok n
  | c :: rest' =>
      match n with
      | File _ => Raise (ENOTDIR whole)
      | Dir =>
          match m !! (cur ++ [c])%list with
          | None => Raise (ENOENT whole)
          | Some n' => resolve_from m whole (cur ++ [c])%list n' rest'
          end
      end
  end.

(** [os.stat(p)] reduced to the kind of node found. *)
Definition stat (m : gmap Path node) (whole p : Path) : result node :=
  resolve_from m whole [] Dir p.

(** [path.exists()]: a failing [stat] means the path does not exist. *)
Definition exists_ (m : gmap Path node) (p : Path) : bool :=
  match stat m p p with
  | Ok _ => true
  | Raise _ => false
  end.

Definition is_dir (m : gmap Path node) (p : Path) : bool :=
  match stat m p p with
  | Ok Dir => true
  | _ => false
  end.

Definition is_file (m : gmap Path node) (p : Path) : bool :=
  match stat m p p with
  | Ok (File _) => true
  | _ => false
  end.

Definition path_exists (p : Path) : M bool :=
  fun s => (s, Ok (exists_ (fs s) p)).

(** [os.mkdir(p)]: the parent must resolve to a directory and [p] must
    be free.  What else can make the operating system refuse (a name
    longer than the filesystem allows, a directory that cannot be written
    to, a read-only filesystem) depends on the machine and is not
    modelled: this is the [os.mkdir] of a filesystem that takes every name
    and can be written to everywhere. *)
Definition os_mkdir (p : Path) : M unit :=
  fun s =>
    match p with
    | [] => (s, Raise (EEXIST p))
    | _ :: _ =>
        match stat (fs s) p (parent p) with
        | Raise e => (s, Raise e)
        | Ok (File _) => (s, Raise (ENOTDIR p))
        | Ok Dir =>
            match fs s !! p with
            | Some _ => (s, Raise (EEXIST p))
            | None => (set_fs s (<[p := Dir]> (fs s)), Ok tt)
            end
        end
    end.

(** [Path.mkdir(parents=False, exist_ok=True)]: an [OSError] other than
    the missing parent is forgiven when the path is a directory. *)
Definition mkdir_exist_ok (p : Path) : M unit :=
  try_except (os_mkdir p) (fun e =>
    match e with
    | FileNotFoundError _ => raise e
    | _ => fun s => if is_dir (fs s) p then (s, Ok tt) else (s, Raise e)
    end).

(** [Path.mkdir(parents=True, exist_ok=True)] on the path [rev rp]: on a
    missing parent, make the parent the same way and try again. *)
Fixpoint mkdir_parents_rev (rp : list string) : M unit :=
  try_except (os_mkdir (rev rp)) (fun e =>
    match e with
    | FileNotFoundError _ =>
        match rp with
        | [] => raise e
        | _ :: rp' => mkdir_parents_rev rp' ;; mkdir_exist_ok (rev rp)
        end
    | _ => fun s => if is_dir (fs s) (rev rp) then (s, Ok tt) else (s, Raise e)
    end).

Definition mkdir_parents (p : Path) : M unit := mkdir_parents_rev (rev p).

(** [ensure_parent]: [path.parent.mkdir(parents=True, exist_ok=True)]. *)
Definition ensure_parent (path : Path) : M unit := mkdir_parents (parent path).

(** [below root p]: [p] lies strictly below [root]. *)
Definition below (root p : Path) : bool :=
  match strip_root root p with
  | Some (_ :: _) => true
  | _ => false
  end.

(** [root.rglob("*")]: every entry strictly below [root], files and
    directories alike, in the order the filesystem lists them. *)
Definition rglob_star (m : gmap Path node) (root : Path) : list Path :=
  filter (fun p => below root p = true) (map_to_list m).*1.

(** [find_heic_files]:
    [[p for p in root.rglob("*") if p.is_file() and p.suffix in HEIC_EXTS]] *)
Definition find_heic_files (m : gmap Path node) (root : Path) : list Path :=
  filter (fun p => is_file m p && in_HEIC_EXTS (suffix p) = true)
         (rglob_star m root).

(** ** The imaging libraries *)

Inductive exif_value : Type :=
  | EInt (n : Z)
  | EBytes (b : bytes)
  | ERational (num den : Z).

(** The dictionary [piexif.load] returns: one tag table per image file
    directory (["0th"], ["Exif"], ["GPS"], ...) and the thumbnail. *)
Record exif_dict : Type := mkExif {
  ifds : gmap string (gmap Z exif_value);
  thumbnail : option bytes
}.

(** The [piexif] module, when its import succeeded. *)
Record Piexif : Type := mkPiexif {
  piexif_load : bytes -> result exif_dict;
  piexif_dump : exif_dict -> result bytes
}.

(** [piexif.ImageIFD.Orientation] *)
Definition Orientation : Z := 274.

(** How Pillow's JPEG writer ends: with the bytes of the whole file, with
    an exception after some bytes were written, or with an exception
    before the destination was opened at all. *)
Inductive encoded : Type :=
  | Encoded (data : bytes)
  | EncodeFailed (e : exn) (partial : bytes)
  | EncodeRefused (e : exn).

(** The environment the script runs in.  [heif_available] is
    [_HEIF_AVAILABLE], [piexif] is [None] when the import failed; the
    next fields are Pillow's operations on an opaque image type.
    [save_removes_created] tells whether this Pillow deletes a file it
    created itself when saving fails.  [console_rejects] is the console
    behind [sys.stdout]: the exception that writing a line to it raises,
    [None] when the line is written. *)
Record World : Type := mkWorld {
  Image : Type;
  heif_available : bool;
  register_heif_opener : result unit;
  piexif : option Piexif;
  image_decode : bytes -> result Image;
  image_info_exif : Image -> option bytes;
  exif_transpose : Image -> result Image;
  convert_RGB : Image -> result Image;
  jpeg_encode : Image -> option bytes -> Z -> encoded;
  save_removes_created : bool;
  console_rejects : string -> option exn
}.

(** Whether a line is made of ASCII characters only. *)
Fixpoint is_ascii_text (msg : string) : bool :=
  match msg with
  | EmptyString => true
  | String c msg' => (nat_of_ascii c <? 128)%nat && is_ascii_text msg'
  end.

Section Program.

Variable W : World.

(** Python's truth value of an [Optional[bytes]]. *)
Definition truthy (b : option bytes) : bool :=
  match b with
  | None | Some [] => false
  | Some (_ :: _) => true
  end.

(** [if piexif.ImageIFD.Orientation in exif_dict.get("0th", {}):]
    [exif_dict["0th"][piexif.ImageIFD.Orientation] = 1] *)
Definition reset_orientation (d : exif_dict) : exif_dict :=
  let zeroth := default ∅ (ifds d !! "0th") in
  if decide (is_Some (zeroth !! Orientation))
  then mkExif (<["0th" := <[Orientation := EInt 1]> zeroth]> (ifds d))
              (thumbnail d)
  else d.

(** The body of the [try] block of [_fix_orientation_exif_bytes]. *)
Definition fix_orientation_body (lib : Piexif) (raw : bytes) : result bytes :=
  rbind (piexif_load lib raw) (fun d => piexif_dump lib (reset_orientation d)).

(** [_fix_orientation_exif_bytes]: the wildcard branch and the [else] are
    [if not exif_bytes or not piexif: return exif_bytes];
    the [try] returns the new bytes, its handler the old ones. *)
Definition _fix_orientation_exif_bytes (exif_bytes : option bytes)
  : result (option bytes) :=
  match exif_bytes, piexif W with
  | Some raw, Some lib =>
      if truthy exif_bytes
      then rtry (rbind (fix_orientation_body lib raw) (fun b => Ok (Some b)))
                (fun _ => Ok exif_bytes)
      else Ok exif_bytes
  | _, _ => Ok exif_bytes
  end.

(** [Image.open(src)]: read the file and identify it. *)
Definition Image_open (src : Path) : M (Image W) :=
  fun s =>
    match stat (fs s) src src with
    | Raise e => (s, Raise e)
    | Ok Dir => (s, Raise (EISDIR src))
    | Ok (File data) => (s, image_decode W data)
    end.

(** [img.save(dest, format="JPEG", exif=..., quality=..., subsampling=0,
    optimize=True)]: open [dest] for writing, which truncates it, then
    encode into it.  When encoding fails, Pillow closes the file and, in
    the versions that do so, removes it if the call had created it. *)
Definition Image_save (img : Image W) (dest : Path) (exif_bytes : option bytes)
    (quality : Z) : M unit :=
  fun s =>
    match jpeg_encode W img exif_bytes quality with
    | EncodeRefused e => (s, Raise e)
    | outcome =>
        let created := negb (exists_ (fs s) dest) in
        match dest with
        | [] => (s, Raise (EISDIR dest))
        | _ :: _ =>
            match stat (fs s) dest (parent dest) with
            | Raise e => (s, Raise e)
            | Ok (File _) => (s, Raise (ENOTDIR dest))
            | Ok Dir =>
                match fs s !! dest with
                | Some Dir => (s, Raise (EISDIR dest))
                | _ =>
                    match outcome with
                    | Encoded data =>
                        (set_fs s (<[dest := File data]> (fs s)), Ok tt)
                    | EncodeFailed e partial =>
                        if created && save_removes_created W
                        then (set_fs s (delete dest (fs s)), Raise e)
                        else (set_fs s (<[dest := File partial]> (fs s)),
                              Raise e)
                    | EncodeRefused e => (s, Raise e)
                    end
                end
            end
        end
    end.

(** The [try] block of [convert_one]. *)
Definition convert_one_body (src dest : Path) (quality : Z)
    (overwrite fix_orientation : bool) : M string :=
  there <- path_exists dest ;;
  if there && negb overwrite
  then ret ("SKIP (exists): " ++ name src)
  else
    ensure_parent dest ;;
    img <- Image_open src ;;
    let exif_bytes := image_info_exif W img in
    r <- (if fix_orientation
          then img' <- lift (exif_transpose W img) ;;
               exif_bytes' <- lift (_fix_orientation_exif_bytes exif_bytes) ;;
               ret (img', exif_bytes')
          else ret (img, exif_bytes)) ;;
    img <- lift (convert_RGB W (fst r)) ;;
    Image_save img dest (snd r) quality ;;
    ret ("OK: " ++ name src).

(** [convert_one]: every exception of the body becomes an ERROR line. *)
Definition convert_one (src dest : Path) (quality : Z)
    (overwrite fix_orientation : bool) : M string :=
  try_except (convert_one_body src dest quality overwrite fix_orientation)
    (fun e => ret ("ERROR: " ++ name src ++ " (" ++ exn_str e ++ ")")).

(** What [print(msg)] raises, if anything.  Every encoding a console can
    have expresses the ASCII characters, so a line made of them is always
    written; any other line, a file name with an accent or with bytes
    that are no text at all, is written or not as the console decides
    ([UnicodeEncodeError] when its encoding cannot express the line). *)
Definition print_error (msg : string) : option exn :=
  if is_ascii_text msg then None else console_rejects W msg.

(** [print(msg)] *)
Definition print (msg : string) : M unit :=
  fun s =>
    match print_error msg with
    | Some e => (s, Raise e)
    | None => (mkState (fs s) (stdout s ++ [msg])%list, Ok tt)
    end.

(** The [for] loop of [run_batch], with its two counters. *)
Fixpoint batch_loop (files : list Path) (input_dir output_dir : Path)
    (quality : Z) (overwrite fix_orientation : bool) (done errors : nat)
  : M (nat * nat) :=
  match files with
  | [] => ret (done, errors)
  | src :: files' =>
      dest <- lift (make_output_path src input_dir output_dir) ;;
      msg <- convert_one src dest quality overwrite fix_orientation ;;
      print msg ;;
      let done := S done in
      let errors := if String.prefix "ERROR" msg then S errors else errors in
      batch_loop files' input_dir output_dir quality overwrite fix_orientation
                 done errors
  end.

(** [run_batch] *)
Definition run_batch (input_dir output_dir : Path) (quality : Z)
    (overwrite fix_orientation : bool) : M (nat * nat * nat) :=
  if negb (heif_available W)
  then raise (RuntimeError
    "HEIC support not available. Install pillow-heif (and libheif on Linux).")
  else
    try_except (lift (register_heif_opener W)) (fun e =>
      raise (RuntimeError ("HEIF initialization failed: " ++ exn_str e))) ;;
    files <- (fun s => (s, Ok (find_heic_files (fs s) input_dir))) ;;
    let total := length files in
    r <- batch_loop files input_dir output_dir quality overwrite
                    fix_orientation 0 0 ;;
    ret (total, fst r, snd r).

(** The command line, as [parse_args] returns it. *)
Record Args : Type := mkArgs {
  arg_overwrite : bool;
  arg_quality : Z;
  arg_no_orient_fix : bool;
  arg_selftest : bool
}.

(** The [try] block of the entry point, once both folders are picked:
    validate the input folder, make the output folder, run the batch. *)
Definition main_batch (args : Args) (src dst : Path) : M (nat * nat * nat) :=
  (fun s =>
     if negb (exists_ (fs s) src) || negb (is_dir (fs s) src)
     then (s, Raise (FileNotFoundError
                       ("Input directory not found: " ++ path_str src)))
     else (s, Ok tt)) ;;
  mkdir_parents dst ;;
  run_batch src dst (clamp_quality (arg_quality args)) (arg_overwrite args)
            (negb (arg_no_orient_fix args)).

End Program.

(** ** The desktop: folder dialogs and message boxes *)

Inductive box : Type :=
  | ShowInfo (title message : string)
  | ShowError (title message : string).

(** [picks] are the folders the user will choose in the dialogs still to
    come, the empty string standing for a dismissed dialog; [asked] are
    the titles of the dialogs shown so far and [boxes] the message boxes
    shown so far. *)
Record Desk : Type := mkDesk {
  picks : list string;
  asked : list string;
  boxes : list box
}.

(** [filedialog.askdirectory(title=...)]; a user who walked away
    dismisses the dialog. *)
Definition askdirectory (title : string) (d : Desk) : Desk * string :=
  match picks d with
  | [] => (mkDesk [] (asked d ++ [title])%list (boxes d), "")
  | a :: rest => (mkDesk rest (asked d ++ [title])%list (boxes d), a)
  end.

Definition show (b : box) (d : Desk) : Desk :=
  mkDesk (picks d) (asked d) (boxes d ++ [b])%list.

(** [s.split("/")] *)
Fixpoint split_sep (s : string) : list string :=
  match s with
  | EmptyString => [""]
  | String c s' =>
      if Ascii.eqb c "/" then "" :: split_sep s'
      else match split_sep s' with
           | [] => [String c ""]
           | h :: t => String c h :: t
           end
  end.

(** [Path(s)]: the components of [s], empty ones and [.] dropped. *)
Definition Path_of_string (s : string) : Path :=
  filter (fun c => c <> "" /\ c <> ".") (split_sep s).

(** [pick_folders] *)
Definition pick_folders (d : Desk) : Desk * (option Path * option Path) :=
  let (d1, in_dir) := askdirectory "Select input folder with HEIC files" d in
  if decide (in_dir = "") then (d1, (None, None))
  else
    let (d2, out_dir) := askdirectory "Select output folder for JPG files" d1 in
    if decide (out_dir = "") then (d2, (None, None))
    else (d2, (Some (Path_of_string in_dir), Some (Path_of_string out_dir))).

(** ** The self-test and the entry point *)

(** [Path.mkdir(parents=True)], [exist_ok] left at [False]: the last
    [os.mkdir] forgives nothing. *)
Definition mkdir_parents_strict (p : Path) : M unit :=
  try_except (os_mkdir p) (fun e =>
    match e with
    | FileNotFoundError _ =>
        match p with
        | [] => raise e
        | _ :: _ => mkdir_parents (parent p) ;; os_mkdir p
        end
    | _ => raise e
    end).

(** [Path.write_bytes(data)]: open for writing, which creates or
    truncates the file, and write. *)
Definition write_bytes (p : Path) (data : bytes) : M unit :=
  fun s =>
    match p with
    | [] => (s, Raise (EISDIR p))
    | _ :: _ =>
        match stat (fs s) p (parent p) with
        | Raise e => (s, Raise e)
        | Ok (File _) => (s, Raise (ENOTDIR p))
        | Ok Dir =>
            match fs s !! p with
            | Some Dir => (s, Raise (EISDIR p))
            | _ => (set_fs s (<[p := File data]> (fs s)), Ok tt)
            end
        end
    end.

(** [shutil.rmtree(p)], as [TemporaryDirectory] runs it on leaving the
    [with] block: [p] and everything below it goes. *)
Definition rmtree (p : Path) (m : gmap Path node) : gmap Path node :=
  filter (fun kv => ~ p `prefix_of` kv.1) m.

(** How a piece of the script can fail: with an exception of the
    modelled classes, or with a failed [assert]. *)
Inductive failure : Type :=
  | Raised (e : exn)
  | AssertionError.

(** How the script ends. *)
Inductive ending : Type :=
  | EndOfScript
  | SystemExit (code : Z)
  | Traceback (f : failure).

(** [AUTHOR_CREDIT] *)
Definition AUTHOR_CREDIT : string :=
  "Make sure you thank John Campbell for making this converter tool!".

Definition newline : string := String "010" "".

(** [str(n)] for a count. *)
Definition str_nat (n : nat) : string :=
  DecimalString.NilEmpty.string_of_uint (Nat.to_uint n).

Section EntryPoint.

Variable W : World.

(** The [with] block of [_selftest], up to the value of its [assert]. *)
Definition selftest_body (td : Path) : M bool :=
  let root := td in
  let src_root := joinpath root (Path_of_string "in/sub") in
  let dst_root := joinpath root (Path_of_string "out") in
  mkdir_parents_strict src_root ;;
  let fake := joinpath src_root (Path_of_string "x.HEIC") in
  write_bytes fake (list_byte_of_string "not-heic") ;;
  dest <- lift (make_output_path fake (joinpath root (Path_of_string "in"))
                                 dst_root) ;;
  ensure_parent dest ;;
  path_exists (parent dest).

(** [_selftest], run with [td] the directory that
    [tempfile.TemporaryDirectory()] makes. *)
Definition _selftest (td : Path) (s : State) : State * (failure + Z) :=
  match os_mkdir td s with
  | (s0, Raise e) => (s0, inl (Raised e))
  | (s1, Ok _) =>
      let (s2, r) := selftest_body td s1 in
      let s3 := set_fs s2 (rmtree td (fs s2)) in
      match r with
      | Raise e => (s3, inl (Raised e))
      | Ok false => (s3, inl AssertionError)
      | Ok true =>
          match _fix_orientation_exif_bytes W None with
          | Raise e => (s3, inl (Raised e))
          | Ok (Some _) => (s3, inl AssertionError)
          | Ok None =>
              match print W "Self-test passed." s3 with
              | (s4, Ok _) => (s4, inr 0)
              | (s4, Raise e) => (s4, inl (Raised e))
              end
          end
      end
  end.

(** The two final messages of a finished batch. *)
Definition summary (sep : string) (total done errs : nat) : string :=
  "Processed " ++ str_nat done ++ "/" ++ str_nat total ++ ". Errors: "
  ++ str_nat errs ++ sep ++ AUTHOR_CREDIT.

(** The script's [__main__] block. *)
Definition main (args : Args) (td : Path) (d : Desk) (s : State)
  : Desk * State * ending :=
  if arg_selftest args
  then
    match _selftest td s with
    | (s', inr code) => (d, s', SystemExit code)
    | (s', inl f) => (d, s', Traceback f)
    end
  else
    match pick_folders d with
    | (d1, (Some src, Some dst)) =>
        match main_batch W args src dst s with
        | (s', Ok (total, done, errs)) =>
            let d2 := show (ShowInfo "HEIC → JPG"
                              (summary (newline ++ newline) total done errs))
                           d1 in
            match print W (summary newline total done errs) s' with
            | (s2, Ok _) => (d2, s2, EndOfScript)
            | (s2, Raise e) =>
                (show (ShowError "HEIC → JPG - Error" (exn_str e)) d2, s2,
                 Traceback (Raised e))
            end
        | (s', Raise e) =>
            (show (ShowError "HEIC → JPG - Error" (exn_str e)) d1, s',
             Traceback (Raised e))
        end
    | (d1, _) =>
        match print W "Cancelled." s with
        | (s1, Ok _) => (d1, s1, SystemExit 0)
        | (s1, Raise e) => (d1, s1, Traceback (Raised e))
        end
    end.

End EntryPoint.

(** ** The specification's reading of "matches HEIC or HEIF" *)

Definition lower_ascii (c : ascii) : ascii :=
  let n := nat_of_ascii c in
  if ((65 <=? n) && (n <=? 90))%nat then ascii_of_nat (n + 32) else c.

Fixpoint lower (s : string) : string :=
  match s with
  | EmptyString => EmptyString
  | String c s' => String (lower_ascii c) (lower s')
  end.

(** The specification's words: the extension equals [.heic] or [.heif]
    under case-insensitive comparison. *)
Definition spec_matches_extension (p : Path) : bool :=
  bool_decide (lower (suffix p) ∈ [".heic"; ".heif"]).

(** ** A small environment to run the program in

    Images are their own bytes; a file decodes when it starts with the
    four bytes [heic]; there is no EXIF block and no [piexif]; encoding
    always succeeds. *)
Module Sample.

Definition magic : bytes := list_byte_of_string "heic".

Definition decode (data : bytes) : result bytes :=
  if bool_decide (take 4 data = magic)
  then Ok data
  else Raise (LibraryError "cannot identify image file").

Definition world : World :=
  {| Image := bytes;
     heif_available := true;
     register_heif_opener := Ok tt;
     piexif := None;
     image_decode := decode;
     image_info_exif := fun _ => None;
     exif_transpose := fun img => Ok img;
     convert_RGB := fun img => Ok img;
     jpeg_encode := fun img _ _ => Encoded img;
     save_removes_created := true;
     console_rejects := fun _ => None |}.

(** The tree of the script's self-test: [in/sub/x.HEIC] holding the
    bytes [not-heic], next to an empty [out]. *)
Definition selftest_fs : gmap Path node :=
  <[ ["in"; "sub"; "x.HEIC"] := File (list_byte_of_string "not-heic") ]>
  (<[ ["in"; "sub"] := Dir ]>
  (<[ ["in"] := Dir ]>
  (<[ ["out"] := Dir ]> ∅))).

(** A tree with a decodable [a/b.HEIC], a mixed-case [a/d.Heic] and an
    unrelated [a/c.jpg]. *)
Definition photos_fs : gmap Path node :=
  <[ ["in"; "a"; "b.HEIC"] := File (list_byte_of_string "heic-b") ]>
  (<[ ["in"; "a"; "d.Heic"] := File (list_byte_of_string "heic-d") ]>
  (<[ ["in"; "a"; "c.jpg"] := File (list_byte_of_string "jpeg-c") ]>
  (<[ ["in"; "a"] := Dir ]>
  (<[ ["in"] := Dir ]>
  (<[ ["out"] := Dir ]> ∅))))).

Definition start (m : gmap Path node) : State := mkState m [].

(** The same environment after a failed [import pillow_heif]. *)
Definition world_without_heif : World :=
  {| Image := bytes;
     heif_available := false;
     register_heif_opener := Ok tt;
     piexif := None;
     image_decode := decode;
     image_info_exif := fun _ => None;
     exif_transpose := fun img => Ok img;
     convert_RGB := fun img => Ok img;
     jpeg_encode := fun img _ _ => Encoded img;
     save_removes_created := true;
     console_rejects := fun _ => None |}.

(** A [piexif] that reads blocks starting with [Exif] as a sideways
    picture and rejects everything else. *)
Definition sideways : exif_dict :=
  mkExif {[ "0th" := {[ Orientation := EInt 6 ]} ]} None.

Definition strict_piexif : Piexif :=
  {| piexif_load := fun raw =>
       if bool_decide (take 4 raw = list_byte_of_string "Exif")
       then Ok sideways
       else Raise (LibraryError "unpack requires a buffer of 2 bytes");
     piexif_dump := fun d =>
       match default ∅ (ifds d !! "0th") !! Orientation with
       | Some (EInt 1) => Ok (list_byte_of_string "Exif-upright")
       | _ => Ok (list_byte_of_string "Exif-other")
       end |}.

Definition world_with_piexif : World :=
  {| Image := bytes;
     heif_available := true;
     register_heif_opener := Ok tt;
     piexif := Some strict_piexif;
     image_decode := decode;
     image_info_exif := fun _ => Some (list_byte_of_string "Exif-sideways");
     exif_transpose := fun img => Ok img;
     convert_RGB := fun img => Ok img;
     jpeg_encode := fun img _ _ => Encoded img;
     save_removes_created := true;
     console_rejects := fun _ => None |}.

(** An environment whose JPEG writer gives up right after opening the
    destination. *)
Definition world_failing_encoder : World :=
  {| Image := bytes;
     heif_available := true;
     register_heif_opener := Ok tt;
     piexif := None;
     image_decode := decode;
     image_info_exif := fun _ => None;
     exif_transpose := fun img => Ok img;
     convert_RGB := fun img => Ok img;
     jpeg_encode := fun _ _ _ =>
       EncodeFailed (LibraryError "encoder error -2 when writing image file") [];
     save_removes_created := true;
     console_rejects := fun _ => None |}.

(** The same environment behind a console that writes ASCII only. *)
Definition world_ascii_console : World :=
  {| Image := bytes;
     heif_available := true;
     register_heif_opener := Ok tt;
     piexif := None;
     image_decode := decode;
     image_info_exif := fun _ => None;
     exif_transpose := fun img => Ok img;
     convert_RGB := fun img => Ok img;
     jpeg_encode := fun img _ _ => Encoded img;
     save_removes_created := true;
     console_rejects := fun _ =>
       Some (UnicodeEncodeError "'ascii' codec can't encode characters") |}.

(** A tree with two pictures, the first with an accent in its name. *)
Definition accent_fs : gmap Path node :=
  <[ ["in"; "a"; "café.heic"] := File (list_byte_of_string "heic-c") ]>
  (<[ ["in"; "a"; "z.heic"] := File (list_byte_of_string "heic-z") ]>
  (<[ ["in"; "a"] := Dir ]>
  (<[ ["in"] := Dir ]>
  (<[ ["out"] := Dir ]> ∅)))).

End Sample.

(** ** Relations between states used in the statements *)

(** [dirs_added n m m']: [m'] is [m] with, at most, new directories at
    free paths of at most [n] components. *)
Definition dirs_added (n : nat) (m m' : gmap Path node) : Prop :=
  forall q, m' !! q = m !! q
            \/ (q <> [] /\ (length q <= n)%nat /\ m !! q = None /\ m' !! q = Some Dir).

(** [frame dest s s']: nothing was printed, and away from [dest] the
    filesystem is as before but for directories made at free paths. *)
Definition frame (dest : Path) (s s' : State) : Prop :=
  stdout s' = stdout s
  /\ forall q, q <> dest ->
       fs s' !! q = fs s !! q \/ (fs s !! q = None /\ fs s' !! q = Some Dir).

(** A statement is [stable] for a relation when every run of it, failing
    or not, relates the state before to the state after. *)
Definition stable {A} (R : State -> State -> Prop) (m : M A) : Prop :=
  forall s s' r, m s = (s', r) -> R s s'.

(** A line of [run_batch] that counts as an error. *)
Definition is_error_line (msg : string) : bool := String.prefix "ERROR" msg.

(** [reports src msg]: [msg] is one of the three lines [convert_one] can
    return for the source [src]. *)
Definition reports (src : Path) (msg : string) : Prop :=
  msg = "OK: " ++ name src
  \/ msg = "SKIP (exists): " ++ name src
  \/ exists e, msg = "ERROR: " ++ name src ++ " (" ++ exn_str e ++ ")".

(** [grown P m m']: [m'] is [m] with, at most, new entries at free
    paths that satisfy [P]. *)
Definition grown (P : Path -> Prop) (m m' : gmap Path node) : Prop :=
  forall k, m' !! k = m !! k \/ (P k /\ m !! k = None).

(** One round of the loop of [run_batch]: the file, its destination, the
    state [convert_one] was called in, the state it returned in and the
    line it returned. *)
Record attempt : Type := mkAttempt {
  at_src : Path;
  at_dest : Path;
  at_before : State;
  at_after : State;
  at_line : string
}.

(** [attempted W input_dir output_dir quality overwrite fix_orientation a]:
    the round [a] is a round of that loop, the destination being the
    mapper's and the line and the state after being what [convert_one]
    returned when called in the state before. *)
Definition attempted (W : World) (input_dir output_dir : Path) (quality : Z)
    (overwrite fix_orientation : bool) (a : attempt) : Prop :=
  make_output_path (at_src a) input_dir output_dir = Ok (at_dest a)
  /\ convert_one W (at_src a) (at_dest a) quality overwrite fix_orientation
                 (at_before a)
     = (at_after a, Ok (at_line a)).

(** The round failed: the [try] block of its [convert_one] call raised. *)
Definition failed (W : World) (quality : Z) (overwrite fix_orientation : bool)
    (a : attempt) : bool :=
  match convert_one_body W (at_src a) (at_dest a) quality overwrite
                         fix_orientation (at_before a) with
  | (_, Raise _) => true
  | (_, Ok _) => false
  end.

(** [chained s log s']: the rounds of [log] follow one another from [s]
    to [s'], each called in the state its predecessor returned in, with
    the predecessor's line printed. *)
Fixpoint chained (s : State) (log : list attempt) (s' : State) : Prop :=
  match log with
  | [] => s' = s
  | a :: log' =>
      at_before a = s
      /\ chained (mkState (fs (at_after a)) (stdout (at_after a) ++ [at_line a]))
                 log' s'
  end.

(** * Properties *)

(** ** Strings and names *)

Lemma string_length_app (a b : string) :
  String.length (a ++ b) = (String.length a + String.length b)%nat.
Proof. induction a as [|c a IH]; simpl; [reflexivity | now rewrite IH]. Qed.

Lemma substring_take_app (a b : string) :
  String.substring 0 (String.length a) (a ++ b) = a.
Proof.
  induction a as [|c a IH]; simpl.
  - now destruct b.
  - now rewrite IH.
Qed.

Lemma prefix_app (a b : string) : String.prefix a (a ++ b) = true.
Proof.
  induction a as [|c a IH]; simpl; [now destruct b |].
  destruct (ascii_dec c c); [exact IH | congruence].
Qed.

Lemma substring_whole (b : string) :
  String.substring 0 (String.length b) b = b.
Proof. induction b as [|d b IHb]; simpl; [reflexivity | now rewrite IHb]. Qed.

Lemma substring_drop_app (a b : string) :
  String.substring (String.length a) (String.length b) (a ++ b) = b.
Proof.
  induction a as [|c a IH]; simpl; [apply substring_whole | exact IH].
Qed.

Lemma rfind_dot_app (stem ext : string) :
  rfind_dot ext = None ->
  rfind_dot (stem ++ String "." ext) = Some (String.length stem).
Proof.
  intros Hext. induction stem as [|c stem IH]; simpl.
  - now rewrite Hext.
  - now rewrite IH.
Qed.

(** The suffix of [stem.ext] is [.ext], whatever the letters of [ext]. *)
Lemma name_suffix_app (stem ext : string) :
  stem <> "" -> ext <> "" -> rfind_dot ext = None ->
  name_suffix (stem ++ String "." ext) = String "." ext.
Proof.
  intros Hstem Hext Hdot. unfold name_suffix.
  rewrite (rfind_dot_app _ _ Hdot), string_length_app. simpl String.length.
  destruct stem as [|c stem]; [congruence |].
  destruct ext as [|d ext]; [congruence |].
  replace ((0 <? String.length (String c stem))
           && (String.length (String c stem)
               <? String.length (String c stem) + S (String.length (String d ext)) - 1))%nat
    with true.
  - replace (String.length (String c stem) + S (String.length (String d ext))
             - String.length (String c stem))%nat
      with (String.length (String "." (String d ext))) by (simpl; lia).
    apply substring_drop_app.
  - symmetry. apply andb_true_intro. split.
    + apply Nat.ltb_lt. simpl. lia.
    + apply Nat.ltb_lt. simpl. lia.
Qed.

Lemma name_with_suffix_app (stem ext sfx : string) :
  stem <> "" -> ext <> "" -> rfind_dot ext = None ->
  name_with_suffix (stem ++ String "." ext) sfx = stem ++ sfx.
Proof.
  intros Hstem Hext Hdot. unfold name_with_suffix.
  rewrite (name_suffix_app _ _ Hstem Hext Hdot).
  destruct (decide (String "." ext = "")) as [E|_]; [discriminate E |].
  rewrite string_length_app.
  replace (String.length stem + String.length (String "." ext)
           - String.length (String "." ext))%nat
    with (String.length stem) by lia.
  now rewrite substring_take_app.
Qed.

(** ** Printing *)

Lemma is_ascii_text_app (a b : string) :
  is_ascii_text (a ++ b) = is_ascii_text a && is_ascii_text b.
Proof.
  induction a as [|c a IH]; simpl; [reflexivity |].
  now rewrite IH, andb_assoc.
Qed.

Lemma is_ascii_text_uint (d : Decimal.uint) :
  is_ascii_text (DecimalString.NilEmpty.string_of_uint d) = true.
Proof. induction d; simpl; auto. Qed.

(** The final messages are made of ASCII characters, whatever the
    counts. *)
Lemma is_ascii_text_summary (total done errs : nat) :
  is_ascii_text (summary newline total done errs) = true.
Proof.
  unfold summary, str_nat. rewrite !is_ascii_text_app, !is_ascii_text_uint.
  reflexivity.
Qed.

(** A line of ASCII characters is printed in every environment. *)
Lemma print_ascii (W : World) (msg : string) (s : State) :
  is_ascii_text msg = true ->
  print W msg s = (mkState (fs s) (stdout s ++ [msg]), Ok tt).
Proof. intros H. unfold print, print_error. now rewrite H. Qed.

(** ** Relative paths *)

Lemma strip_root_app (root rel : Path) : strip_root root (root ++ rel) = Some rel.
Proof.
  induction root as [|r root IH]; simpl; [reflexivity |].
  destruct (decide (r = r)); [exact IH | congruence].
Qed.

Lemma strip_root_Some (root p rel : Path) :
  strip_root root p = Some rel -> p = (root ++ rel)%list.
Proof.
  revert p. induction root as [|r root IH]; intros p; simpl.
  - now intros [= ->].
  - destruct p as [|c p]; [discriminate |].
    destruct (decide (r = c)) as [->|]; [| discriminate].
    intros H. now rewrite (IH _ H).
Qed.

Lemma strip_root_None (root p : Path) :
  strip_root root p = None <-> ~ root `prefix_of` p.
Proof.
  split.
  - intros H [rel ->]. rewrite strip_root_app in H. discriminate.
  - intros H. destruct (strip_root root p) as [rel|] eqn:E; [| reflexivity].
    exfalso. apply H. exists rel. now apply strip_root_Some.
Qed.

Lemma below_inv (root p : Path) :
  below root p = true -> exists rel, rel <> [] /\ p = (root ++ rel)%list.
Proof.
  unfold below. destruct (strip_root root p) as [[|c rel]|] eqn:E; try discriminate.
  intros _. exists (c :: rel). split; [discriminate | now apply strip_root_Some].
Qed.

Lemma below_app (root rel : Path) : rel <> [] -> below root (root ++ rel) = true.
Proof.
  intros H. unfold below. rewrite strip_root_app. now destruct rel.
Qed.

Lemma name_app (root rel : Path) : rel <> [] -> name (root ++ rel) = name rel.
Proof.
  intros H. destruct (exists_last H) as (l & a & ->).
  unfold name. now rewrite app_assoc, !last_last.
Qed.

Lemma parent_app (root rel : Path) :
  rel <> [] -> parent (root ++ rel) = (root ++ parent rel)%list.
Proof. intros H. unfold parent. now apply removelast_app. Qed.

(** What [make_output_path] returns for a path with a relative part and a
    final component: the output root, the relative directories, and the
    name with its suffix replaced. *)
Lemma make_output_path_below (input_root output_root rel : Path) :
  rel <> [] -> name rel <> "" ->
  make_output_path (input_root ++ rel) input_root output_root
  = Ok (output_root ++ parent rel ++ [name_with_suffix (name rel) ".jpg"])%list.
Proof.
  intros Hrel Hname. unfold make_output_path, relative_to.
  rewrite strip_root_app. simpl rbind. unfold with_suffix, joinpath.
  simpl negb. cbv iota.
  rewrite (name_app _ _ Hrel), (parent_app _ _ Hrel).
  destruct (decide (name rel = "")); [contradiction |].
  now rewrite app_assoc.
Qed.

Lemma make_output_path_outside (src input_root output_root : Path) :
  ~ input_root `prefix_of` src ->
  exists msg, make_output_path src input_root output_root = Raise (ValueError msg).
Proof.
  intros H. apply strip_root_None in H.
  unfold make_output_path, relative_to. rewrite H. simpl. eauto.
Qed.

Lemma make_output_path_root (input_root output_root : Path) :
  make_output_path input_root input_root output_root
  = with_suffix output_root ".jpg".
Proof.
  unfold make_output_path, relative_to.
  rewrite <- (app_nil_r input_root) at 2. rewrite strip_root_app.
  simpl. unfold joinpath. now rewrite app_nil_r.
Qed.

(** ** Directories *)

Lemma dirs_added_refl (n : nat) (m : gmap Path node) : dirs_added n m m.
Proof. intros q. now left. Qed.

Lemma dirs_added_trans (n k : nat) (m1 m2 m3 : gmap Path node) :
  (n <= k)%nat -> dirs_added n m1 m2 -> dirs_added k m2 m3 -> dirs_added k m1 m3.
Proof.
  intros Hnk H12 H23 q.
  destruct (H23 q) as [E23|(Hq & Hlen & E2 & E3)];
    destruct (H12 q) as [E12|(Hq' & Hlen' & E1 & E2')].
  - left. congruence.
  - right. repeat split; try assumption; [lia | congruence].
  - right. repeat split; try assumption. congruence.
  - congruence.
Qed.

Lemma resolve_from_lookup (m : gmap Path node) (whole cur : Path) (n n' : node)
    (rest : list string) :
  rest <> [] -> resolve_from m whole cur n rest = Ok n' ->
  m !! (cur ++ rest)%list = Some n'.
Proof.
  revert cur n. induction rest as [|c rest IH]; intros cur n Hne; [congruence |].
  simpl. destruct n as [data|]; [discriminate |].
  destruct (m !! (cur ++ [c])%list) as [n1|] eqn:E; [| discriminate].
  destruct rest as [|c' rest].
  - simpl. intros [= <-]. exact E.
  - intros H. apply IH in H; [| discriminate].
    now rewrite <- app_assoc in H.
Qed.

Lemma is_file_lookup (m : gmap Path node) (p : Path) :
  is_file m p = true -> exists data, m !! p = Some (File data).
Proof.
  unfold is_file, stat. destruct p as [|c p]; [discriminate |].
  destruct (resolve_from m (c :: p) [] Dir (c :: p)) as [[data|]|e] eqn:E;
    try discriminate.
  intros _. exists data.
  now apply (resolve_from_lookup m (c :: p) [] Dir (File data) (c :: p)).
Qed.

Lemma os_mkdir_effect (p : Path) (s s' : State) (r : result unit) :
  os_mkdir p s = (s', r) ->
  stdout s' = stdout s /\ dirs_added (length p) (fs s) (fs s').
Proof.
  unfold os_mkdir. destruct p as [|c p].
  { intros [= <- _]. split; [reflexivity | apply dirs_added_refl]. }
  destruct (stat (fs s) (c :: p) (parent (c :: p))) as [[data|]|e].
  1, 3: intros [= <- _]; split; [reflexivity | apply dirs_added_refl].
  destruct (fs s !! (c :: p)) as [n|] eqn:E.
  { intros [= <- _]. split; [reflexivity | apply dirs_added_refl]. }
  intros [= <- _]. split; [reflexivity |]. intros q. simpl fs.
  destruct (decide (q = c :: p)) as [->|Hne].
  - right. rewrite lookup_insert_eq. repeat split; [discriminate | lia | exact E].
  - left. now rewrite lookup_insert_ne.
Qed.

Lemma forgive_effect (p : Path) (e : exn) (s s' : State) (r : result unit) :
  (if is_dir (fs s) p then (s, Ok tt) else (s, Raise e)) = (s', r) -> s' = s.
Proof. destruct (is_dir (fs s) p); now intros [= <- _]. Qed.

Lemma mkdir_exist_ok_effect (p : Path) (s s' : State) (r : result unit) :
  mkdir_exist_ok p s = (s', r) ->
  stdout s' = stdout s /\ dirs_added (length p) (fs s) (fs s').
Proof.
  unfold mkdir_exist_ok, try_except.
  destruct (os_mkdir p s) as [s1 [[]|e]] eqn:E;
    apply os_mkdir_effect in E.
  - now intros [= <- _].
  - destruct e; unfold raise;
      (intros [= <- _] || (intros H; apply forgive_effect in H; subst s'));
      exact E.
Qed.

Lemma mkdir_parents_rev_effect (rp : list string) (s s' : State) (r : result unit) :
  mkdir_parents_rev rp s = (s', r) ->
  stdout s' = stdout s /\ dirs_added (length rp) (fs s) (fs s').
Proof.
  revert s s' r. induction rp as [|c rp IH]; intros s s' r.
  - simpl. unfold try_except. simpl. intros H.
    assert (s' = s) as ->
      by (destruct (is_dir (fs s) []); now injection H as <- _).
    split; [reflexivity | apply dirs_added_refl].
  - cbn [mkdir_parents_rev]. unfold try_except.
    destruct (os_mkdir (rev (c :: rp)) s) as [s1 [[]|e]] eqn:E;
      apply os_mkdir_effect in E; rewrite length_rev in E.
    + now intros [= <- _].
    + destruct E as [Eout Edirs].
      destruct e;
        try (intros H; apply forgive_effect in H; subst s'; now split).
      unfold bind.
      destruct (mkdir_parents_rev rp s1) as [s2 [[]|e2]] eqn:E2;
        apply IH in E2; destruct E2 as [Eout2 Edirs2].
      * intros H. apply mkdir_exist_ok_effect in H.
        rewrite length_rev in H. destruct H as [Eout3 Edirs3].
        split; [congruence |].
        eapply dirs_added_trans; [| exact Edirs | ]; [lia |].
        eapply dirs_added_trans; [| exact Edirs2 | exact Edirs3]. simpl. lia.
      * intros [= <- _]. split; [congruence |].
        eapply dirs_added_trans; [| exact Edirs | ]; [lia |].
        eapply dirs_added_trans; [| exact Edirs2 | apply dirs_added_refl].
        simpl. lia.
Qed.

(** [ensure_parent dest] only makes directories, at free paths, and never
    at [dest] itself. *)
Lemma ensure_parent_effect (dest : Path) (s s' : State) (r : result unit) :
  ensure_parent dest s = (s', r) ->
  stdout s' = stdout s
  /\ fs s' !! dest = fs s !! dest
  /\ forall q, fs s' !! q = fs s !! q \/ (fs s !! q = None /\ fs s' !! q = Some Dir).
Proof.
  unfold ensure_parent, mkdir_parents. intros H.
  apply mkdir_parents_rev_effect in H. rewrite length_rev in H.
  destruct H as [Hout Hdirs]. split; [exact Hout |]. split.
  - destruct (Hdirs dest) as [E|(Hne & Hlen & _)]; [exact E |].
    exfalso. destruct (exists_last Hne) as (l & a & ->).
    unfold parent in Hlen. rewrite removelast_last, length_app in Hlen.
    simpl in Hlen. lia.
  - intros q. destruct (Hdirs q) as [E|(_ & _ & E1 & E2)]; [now left | now right].
Qed.

(** ** Resolving paths and making directories, step by step *)

Lemma resolve_from_app (m : gmap Path node) (whole cur : Path) (n : node)
    (a b : list string) :
  resolve_from m whole cur n (a ++ b)
  = rbind (resolve_from m whole cur n a)
          (fun n' => resolve_from m whole (cur ++ a) n' b).
Proof.
  revert cur n. induction a as [|c a IH]; intros cur n; simpl.
  - now rewrite app_nil_r.
  - destruct n as [data|]; [reflexivity |].
    destruct (m !! (cur ++ [c])%list) as [n1|]; [| reflexivity].
    rewrite IH. now rewrite <- app_assoc.
Qed.

Lemma resolve_from_insert (m : gmap Path node) (whole cur : Path) (n v : node)
    (rest : list string) (k : Path) :
  (length cur + length rest < length k)%nat ->
  resolve_from (<[k := v]> m) whole cur n rest = resolve_from m whole cur n rest.
Proof.
  revert cur n. induction rest as [|c rest IH]; intros cur n Hlen; simpl;
    [reflexivity |].
  destruct n as [data|]; [reflexivity |].
  rewrite lookup_insert_ne.
  - destruct (m !! (cur ++ [c])%list) as [n1|]; [| reflexivity].
    apply IH. rewrite length_app. simpl in *. lia.
  - intros ->. rewrite length_app in Hlen. simpl in Hlen. lia.
Qed.

(** Resolving [q/c]: resolve [q], which must be a directory, then look
    [q/c] up. *)
Lemma stat_snoc (m : gmap Path node) (whole q : Path) (c : string) :
  stat m whole (q ++ [c])
  = match stat m whole q with
    | Ok Dir =>
        match m !! (q ++ [c])%list with
        | Some n => Ok n
        | None => Raise (ENOENT whole)
        end
    | Ok (File _) => Raise (ENOTDIR whole)
    | Raise e => Raise e
    end.
Proof.
  unfold stat. rewrite resolve_from_app. simpl.
  destruct (resolve_from m whole [] Dir q) as [[data|]|e]; reflexivity.
Qed.

Lemma stat_whole (m : gmap Path node) (w1 w2 p : Path) (n : node) :
  stat m w1 p = Ok n -> stat m w2 p = Ok n.
Proof.
  revert n. induction p as [|c q IH] using rev_ind; intros n.
  - trivial.
  - rewrite !stat_snoc.
    destruct (stat m w1 q) as [[data|]|e]; try discriminate.
    rewrite (IH Dir eq_refl).
    destruct (m !! (q ++ [c])%list); [trivial | discriminate].
Qed.

Lemma is_dir_snoc (m : gmap Path node) (q : Path) (c : string) :
  is_dir m (q ++ [c]) = true
  <-> is_dir m q = true /\ m !! (q ++ [c])%list = Some Dir.
Proof.
  unfold is_dir. rewrite stat_snoc. split.
  - destruct (stat m (q ++ [c]) q) as [[data|]|e] eqn:E; try discriminate.
    rewrite (stat_whole _ _ q _ _ E).
    destruct (m !! (q ++ [c])%list) as [[data|]|]; try discriminate. auto.
  - destruct (stat m q q) as [[data|]|e] eqn:E; intros [H1 H2]; try discriminate.
    rewrite (stat_whole _ _ (q ++ [c]) _ _ E), H2. reflexivity.
Qed.

Lemma os_mkdir_ok (p : Path) (s s' : State) :
  os_mkdir p s = (s', Ok tt) -> is_dir (fs s') p = true.
Proof.
  unfold os_mkdir. destruct p as [|c0 p0] eqn:Ep; [discriminate |].
  rewrite <- Ep. assert (p <> []) as Hne by (subst p; discriminate).
  destruct (exists_last Hne) as (q & c & Hp). rewrite Hp.
  unfold parent. rewrite removelast_last.
  destruct (stat (fs s) (q ++ [c]) q) as [[data|]|e] eqn:E; try discriminate.
  destruct (fs s !! (q ++ [c])%list) as [n|] eqn:El; [discriminate |].
  intros [= <-]. apply is_dir_snoc. simpl fs. split.
  - unfold is_dir, stat. rewrite resolve_from_insert.
    + fold (stat (fs s) q q). now rewrite (stat_whole _ _ q _ _ E).
    + rewrite length_app. simpl. lia.
  - apply lookup_insert_eq.
Qed.

Lemma mkdir_exist_ok_ok (p : Path) (s s' : State) :
  mkdir_exist_ok p s = (s', Ok tt) -> is_dir (fs s') p = true.
Proof.
  unfold mkdir_exist_ok, try_except.
  destruct (os_mkdir p s) as [s1 [[]|e]] eqn:E.
  - intros [= <-]. now apply os_mkdir_ok in E.
  - destruct e; unfold raise; try discriminate;
      destruct (is_dir (fs s1) p) eqn:Ed; try discriminate;
      now intros [= <-].
Qed.

Lemma mkdir_parents_rev_ok (rp : list string) (s s' : State) :
  mkdir_parents_rev rp s = (s', Ok tt) -> is_dir (fs s') (rev rp) = true.
Proof.
  destruct rp as [|c rp]; cbn [mkdir_parents_rev]; unfold try_except.
  - reflexivity.
  - destruct (os_mkdir (rev (c :: rp)) s) as [s1 [[]|e]] eqn:E.
    + intros [= <-]. now apply os_mkdir_ok in E.
    + destruct e; unfold raise;
        try (destruct (is_dir (fs s1) (rev (c :: rp))) eqn:Ed;
             [now intros [= <-] | discriminate]).
      unfold bind. destruct (mkdir_parents_rev rp s1) as [s2 [[]|e2]];
        [| discriminate].
      apply mkdir_exist_ok_ok.
Qed.

(** A path that is a directory already is left alone. *)
Lemma mkdir_parents_noop (p : Path) (s : State) :
  is_dir (fs s) p = true -> mkdir_parents p s = (s, Ok tt).
Proof.
  intros Hd. unfold mkdir_parents.
  assert (os_mkdir p s = (s, Raise (EEXIST p))) as Hmk.
  { unfold os_mkdir. destruct p as [|c0 p0] eqn:Ep; [reflexivity |].
    rewrite <- Ep in *. assert (p <> []) as Hne by (subst p; discriminate).
    destruct (exists_last Hne) as (q & c & Hq). rewrite Hq in *.
    apply is_dir_snoc in Hd as [Hq1 Hq2].
    unfold parent. rewrite removelast_last.
    unfold is_dir in Hq1.
    destruct (stat (fs s) q q) as [[data|]|e] eqn:E; try discriminate.
    rewrite (stat_whole _ _ (q ++ [c]) _ _ E), Hq2. reflexivity. }
  destruct (rev p) as [|c rp] eqn:Er; cbn [mkdir_parents_rev]; unfold try_except.
  - simpl. reflexivity.
  - rewrite <- Er, rev_involutive, Hmk. unfold EEXIST. now rewrite Hd.
Qed.

Lemma os_mkdir_unfold (p : Path) (s : State) :
  p <> [] ->
  os_mkdir p s
  = match stat (fs s) p (parent p) with
    | Raise e => (s, Raise e)
    | Ok (File _) => (s, Raise (ENOTDIR p))
    | Ok Dir =>
        match fs s !! p with
        | Some _ => (s, Raise (EEXIST p))
        | None => (set_fs s (<[p := Dir]> (fs s)), Ok tt)
        end
    end.
Proof. destruct p; [congruence | reflexivity]. Qed.

Lemma snoc_not_nil (q : Path) (c : string) : (q ++ [c])%list <> [].
Proof. now destruct q. Qed.

Lemma os_mkdir_fresh (q : Path) (c : string) (s : State) :
  is_dir (fs s) q = true -> fs s !! (q ++ [c])%list = None ->
  os_mkdir (q ++ [c]) s = (set_fs s (<[(q ++ [c])%list := Dir]> (fs s)), Ok tt).
Proof.
  intros Hq Hc. rewrite os_mkdir_unfold by apply snoc_not_nil.
  unfold parent. rewrite removelast_last. unfold is_dir in Hq.
  destruct (stat (fs s) q q) as [[data|]|e] eqn:E; try discriminate.
  now rewrite (stat_whole _ _ (q ++ [c]) _ _ E), Hc.
Qed.

(** Below a directory, a path whose first component is missing does not
    resolve. *)
Lemma stat_missing (m : gmap Path node) (whole base : Path) (c : string)
    (rest : list string) :
  is_dir m base = true -> m !! (base ++ [c])%list = None ->
  stat m whole (base ++ c :: rest) = Raise (ENOENT whole).
Proof.
  intros Hb Hc. unfold stat. rewrite resolve_from_app.
  unfold is_dir in Hb.
  destruct (stat m base base) as [[data|]|e] eqn:E; try discriminate.
  apply (stat_whole _ _ whole) in E. unfold stat in E. rewrite E.
  simpl. now rewrite Hc.
Qed.

(** Below a regular file nothing resolves. *)
Lemma stat_through_file (m : gmap Path node) (whole a : Path) (c : string)
    (rest : list string) :
  is_file m a = true ->
  stat m whole (a ++ c :: rest) = Raise (ENOTDIR whole).
Proof.
  intros Ha. unfold stat. rewrite resolve_from_app.
  unfold is_file in Ha.
  destruct (stat m a a) as [[data|]|e] eqn:E; try discriminate.
  apply (stat_whole _ _ whole) in E. unfold stat in E. rewrite E.
  reflexivity.
Qed.

(** [mkdir(parents=True, exist_ok=True)] succeeds on a path that hangs,
    through free names only, below a directory. *)
Lemma mkdir_parents_creates (base rest : Path) (s : State) :
  is_dir (fs s) base = true ->
  (forall r, r <> [] -> r `prefix_of` rest -> fs s !! (base ++ r)%list = None) ->
  exists s',
    mkdir_parents (base ++ rest) s = (s', Ok tt)
    /\ is_dir (fs s') (base ++ rest) = true.
Proof.
  revert s. induction rest as [|c rest IH] using rev_ind; intros s Hbase Hfree.
  - rewrite app_nil_r. exists s. split; [now apply mkdir_parents_noop | exact Hbase].
  - assert (fs s !! (base ++ rest ++ [c])%list = None) as Hp
      by (apply Hfree; [apply snoc_not_nil | reflexivity]).
    unfold mkdir_parents. rewrite app_assoc, rev_unit.
    cbn [mkdir_parents_rev]. unfold try_except.
    assert (rev (c :: rev (base ++ rest)) = ((base ++ rest) ++ [c])%list) as Hrev
      by (simpl; now rewrite rev_involutive).
    rewrite Hrev. rewrite app_assoc in Hp.
    destruct rest as [|c1 rest1].
    + rewrite app_nil_r in *.
      rewrite (os_mkdir_fresh base c s Hbase Hp).
      eexists. split; [reflexivity |].
      apply (os_mkdir_ok (base ++ [c]) s). now apply os_mkdir_fresh.
    + assert (os_mkdir ((base ++ c1 :: rest1) ++ [c]) s
              = (s, Raise (ENOENT ((base ++ c1 :: rest1) ++ [c])))) as Hmk.
      { rewrite os_mkdir_unfold by apply snoc_not_nil.
        unfold parent. rewrite removelast_last.
        rewrite (stat_missing (fs s) _ base c1 rest1 Hbase); [reflexivity |].
        apply Hfree; [discriminate |]. exists (rest1 ++ [c])%list. reflexivity. }
      rewrite Hmk. unfold ENOENT at 1. unfold bind.
      destruct (IH s Hbase) as (s1 & Hpar & Hdir).
      { intros r Hr [k Hk]. apply Hfree; [exact Hr |].
        exists (k ++ [c])%list. rewrite Hk. now rewrite <- app_assoc. }
      unfold mkdir_parents in Hpar. rewrite Hpar.
      apply mkdir_parents_rev_effect in Hpar as [_ Hadded].
      rewrite length_rev in Hadded.
      assert (fs s1 !! ((base ++ c1 :: rest1) ++ [c])%list = None) as Hp1.
      { destruct (Hadded ((base ++ c1 :: rest1) ++ [c])%list)
          as [E|(_ & Hlen & _)].
        - now rewrite E.
        - rewrite length_app in Hlen. simpl in Hlen. lia. }
      unfold mkdir_exist_ok, try_except.
      rewrite (os_mkdir_fresh _ c s1 Hdir Hp1).
      eexists. split; [reflexivity |].
      apply (os_mkdir_ok ((base ++ c1 :: rest1) ++ [c]) s1).
      now apply os_mkdir_fresh.
Qed.

(** [mkdir(parents=True, exist_ok=True)] on a path that is, or runs
    through, a regular file raises and changes nothing. *)
Lemma mkdir_parents_blocked (a rest : Path) (s : State) :
  is_file (fs s) a = true ->
  exists e,
    mkdir_parents (a ++ rest) s = (s, Raise e)
    /\ (e = EEXIST (a ++ rest) \/ e = ENOTDIR (a ++ rest)).
Proof.
  intros Ha. unfold mkdir_parents.
  assert (a <> []) as Hane by (intros ->; discriminate Ha).
  destruct rest as [|c1 rest1 _] using rev_ind.
  - rewrite app_nil_r. destruct (exists_last Hane) as (q & c & ->).
    rewrite rev_unit. cbn [mkdir_parents_rev]. unfold try_except.
    assert (rev (c :: rev q) = (q ++ [c])%list) as Hrev
      by (simpl; now rewrite rev_involutive).
    rewrite Hrev.
    assert (is_dir (fs s) (q ++ [c]) = false) as Hnd.
    { unfold is_dir. unfold is_file in Ha.
      now destruct (stat (fs s) (q ++ [c]) (q ++ [c])) as [[data|]|e]. }
    unfold is_file in Ha. rewrite stat_snoc in Ha.
    destruct (stat (fs s) (q ++ [c]) q) as [[data|]|e] eqn:E; try discriminate.
    destruct (fs s !! (q ++ [c])%list) as [[data|]|] eqn:El; try discriminate.
    exists (EEXIST (q ++ [c])). split; [| now left].
    rewrite os_mkdir_unfold by apply snoc_not_nil.
    unfold parent. rewrite removelast_last, E, El.
    unfold EEXIST at 1. now rewrite Hnd.
  - rewrite app_assoc, rev_unit. cbn [mkdir_parents_rev]. unfold try_except.
    assert (rev (c1 :: rev (a ++ rest1)) = ((a ++ rest1) ++ [c1])%list) as Hrev
      by (simpl; now rewrite rev_involutive).
    rewrite Hrev.
    assert (is_dir (fs s) ((a ++ rest1) ++ [c1]) = false) as Hnd.
    { unfold is_dir. rewrite <- app_assoc.
      destruct rest1 as [|c2 rest2]; simpl.
      - now rewrite (stat_through_file (fs s) _ a c1 [] Ha).
      - now rewrite (stat_through_file (fs s) _ a c2 (rest2 ++ [c1]) Ha). }
    exists (ENOTDIR ((a ++ rest1) ++ [c1])). split; [| now right].
    assert (os_mkdir ((a ++ rest1) ++ [c1]) s
            = (s, Raise (ENOTDIR ((a ++ rest1) ++ [c1])))) as Hmk.
    { rewrite os_mkdir_unfold by apply snoc_not_nil.
      unfold parent. rewrite removelast_last.
      destruct rest1 as [|c2 rest2].
      - rewrite app_nil_r. unfold is_file in Ha.
        destruct (stat (fs s) a a) as [[data|]|e] eqn:E; try discriminate.
        now rewrite (stat_whole _ _ (a ++ [c1]) _ _ E).
      - now rewrite (stat_through_file (fs s) _ a c2 rest2 Ha). }
    rewrite Hmk. unfold ENOTDIR at 1. now rewrite Hnd.
Qed.

(** ** What making directories leaves alone *)

Lemma grown_refl (P : Path -> Prop) (m : gmap Path node) : grown P m m.
Proof. intros k. now left. Qed.

Lemma grown_weaken (P Q : Path -> Prop) (m m' : gmap Path node) :
  (forall k, P k -> Q k) -> grown P m m' -> grown Q m m'.
Proof. intros HPQ H k. destruct (H k) as [E|[HP E]]; [now left | right; auto]. Qed.

Lemma grown_trans (P : Path -> Prop) (m1 m2 m3 : gmap Path node) :
  grown P m1 m2 -> grown P m2 m3 -> grown P m1 m3.
Proof.
  intros H12 H23 k.
  destruct (H23 k) as [E23|[HP E2]]; destruct (H12 k) as [E12|[HP' E1]].
  - left. congruence.
  - right. auto.
  - right. split; [exact HP | congruence].
  - right. auto.
Qed.

Lemma grown_insert (P : Path -> Prop) (m : gmap Path node) (p : Path) (n : node) :
  P p -> m !! p = None -> grown P m (<[p := n]> m).
Proof.
  intros HP Hp k. destruct (decide (k = p)) as [->|Hne].
  - right. auto.
  - left. now rewrite lookup_insert_ne.
Qed.

(** Entries that are there stay as they are. *)
Lemma grown_keeps (P : Path -> Prop) (m m' : gmap Path node) (k : Path) (n : node) :
  grown P m m' -> m !! k = Some n -> m' !! k = Some n.
Proof. intros H E. destruct (H k) as [E'|[_ E']]; congruence. Qed.

Lemma stat_grown (P : Path -> Prop) (m m' : gmap Path node) (w p : Path) (n : node) :
  grown P m m' -> stat m w p = Ok n -> stat m' w p = Ok n.
Proof.
  intros Hg. revert n. induction p as [|c q IH] using rev_ind; intros n.
  - trivial.
  - rewrite !stat_snoc.
    destruct (stat m w q) as [[data|]|e]; try discriminate.
    rewrite (IH Dir eq_refl).
    destruct (m !! (q ++ [c])%list) as [n0|] eqn:E; [| discriminate].
    now rewrite (grown_keeps P m m' _ _ Hg E).
Qed.

Lemma is_dir_grown (P : Path -> Prop) (m m' : gmap Path node) (p : Path) :
  grown P m m' -> is_dir m p = true -> is_dir m' p = true.
Proof.
  intros Hg. unfold is_dir.
  destruct (stat m p p) as [[data|]|e] eqn:E; try discriminate.
  now rewrite (stat_grown P m m' p p Dir Hg E).
Qed.

(** The named ancestors of a directory are directories in the map. *)
Lemma is_dir_prefix (m : gmap Path node) (p k : Path) :
  is_dir m p = true -> k <> [] -> k `prefix_of` p -> m !! k = Some Dir.
Proof.
  induction p as [|c q IH] using rev_ind; intros Hd Hk Hpre.
  - apply prefix_nil_inv in Hpre. contradiction.
  - apply is_dir_snoc in Hd as [Hq Hl].
    destruct Hpre as [r Hr]. destruct r as [|x r _] using rev_ind.
    + rewrite app_nil_r in Hr. now subst k.
    + rewrite app_assoc in Hr. apply app_inj_tail in Hr as [-> _].
      apply IH; [exact Hq | exact Hk | now exists r].
Qed.

Lemma is_dir_exists (m : gmap Path node) (p : Path) :
  is_dir m p = true -> exists_ m p = true.
Proof. unfold is_dir, exists_. now destruct (stat m p p) as [[data|]|e]. Qed.

Lemma os_mkdir_grown (p : Path) (s s' : State) (r : result unit) :
  os_mkdir p s = (s', r) ->
  stdout s' = stdout s /\ grown (fun k => k = p /\ k <> []) (fs s) (fs s').
Proof.
  destruct p as [|c p]; [intros [= <- _]; split; [reflexivity | apply grown_refl] |].
  rewrite os_mkdir_unfold by discriminate.
  destruct (stat (fs s) (c :: p) (parent (c :: p))) as [[data|]|e];
    try (intros [= <- _]; split; [reflexivity | apply grown_refl]).
  destruct (fs s !! (c :: p)) as [n|] eqn:E;
    intros [= <- _]; (split; [reflexivity |]); [apply grown_refl |].
  apply grown_insert; [split; [reflexivity | discriminate] | exact E].
Qed.

Lemma mkdir_exist_ok_grown (p : Path) (s s' : State) (r : result unit) :
  mkdir_exist_ok p s = (s', r) ->
  stdout s' = stdout s /\ grown (fun k => k = p /\ k <> []) (fs s) (fs s').
Proof.
  unfold mkdir_exist_ok, try_except.
  destruct (os_mkdir p s) as [s1 [[]|e]] eqn:E; apply os_mkdir_grown in E.
  - now intros [= <- _].
  - destruct e; unfold raise;
      (intros [= <- _] || (intros H; apply forgive_effect in H; subst s'));
      exact E.
Qed.

(** [mkdir(parents=True, exist_ok=True)] makes entries at named leading
    parts of its path only. *)
Lemma mkdir_parents_grown (p : Path) (s s' : State) (r : result unit) :
  mkdir_parents p s = (s', r) ->
  stdout s' = stdout s
  /\ grown (fun k => k `prefix_of` p /\ k <> []) (fs s) (fs s').
Proof.
  unfold mkdir_parents. revert s s' r.
  induction p as [|c q IH] using rev_ind; intros s s' r.
  - simpl. unfold try_except. simpl. intros H.
    assert (s' = s) as ->
      by (destruct (is_dir (fs s) []); now injection H as <- _).
    split; [reflexivity | apply grown_refl].
  - rewrite rev_unit. cbn [mkdir_parents_rev]. unfold try_except.
    assert (rev (c :: rev q) = (q ++ [c])%list) as Hrev
      by (simpl; now rewrite rev_involutive).
    rewrite Hrev.
    assert (forall m m', grown (fun k => k = (q ++ [c])%list /\ k <> []) m m' ->
                         grown (fun k => k `prefix_of` (q ++ [c])%list /\ k <> []) m m')
      as Hself
      by (intros m m'; apply grown_weaken; intros k [-> Hk];
          split; [reflexivity | exact Hk]).
    destruct (os_mkdir (q ++ [c]) s) as [s1 [[]|e]] eqn:E;
      apply os_mkdir_grown in E as [Eout Eg]; apply Hself in Eg.
    + now intros [= <- _].
    + destruct e;
        try (intros H; apply forgive_effect in H; subst s'; now split).
      unfold bind.
      destruct (mkdir_parents_rev (rev q) s1) as [s2 [[]|e2]] eqn:E2;
        apply IH in E2 as [Eout2 Eg2];
        apply (grown_weaken _ (fun k => k `prefix_of` (q ++ [c])%list /\ k <> []))
          in Eg2; try (intros k [Hk Hk']; split; [now apply prefix_app_r | exact Hk']).
      * intros H. apply mkdir_exist_ok_grown in H as [Eout3 Eg3].
        apply Hself in Eg3. split; [congruence |].
        eapply grown_trans; [exact Eg |]. eapply grown_trans; eassumption.
      * intros [= <- _]. split; [congruence |].
        eapply grown_trans; eassumption.
Qed.

Lemma prefix_snoc_cases (k q : Path) (c : string) :
  k `prefix_of` (q ++ [c])%list -> k = (q ++ [c])%list \/ k `prefix_of` q.
Proof.
  intros [r Hr]. destruct r as [|x r _] using rev_ind.
  - left. now rewrite app_nil_r in Hr.
  - right. rewrite app_assoc in Hr. apply app_inj_tail in Hr as [-> _].
    now exists r.
Qed.

(** Below a directory, what grows at leading parts of a path grows below
    the directory. *)
Lemma grown_below (m m' : gmap Path node) (base rest : Path) :
  is_dir m base = true ->
  grown (fun k => k `prefix_of` (base ++ rest)%list /\ k <> []) m m' ->
  grown (fun k => base `prefix_of` k) m m'.
Proof.
  intros Hd Hg k. destruct (Hg k) as [E|[[Hpre Hk] E]]; [now left |].
  destruct (prefix_weak_total k base (base ++ rest)%list Hpre) as [Hkb|Hbk];
    [now apply prefix_app_r | | right; auto].
  rewrite (is_dir_prefix m base k Hd Hk Hkb) in E. discriminate.
Qed.

(** [ensure_parent dest] makes directories only, at free paths that are
    named leading parts of the destination's parent. *)
Lemma ensure_parent_makes (dest : Path) (s s' : State) (r : result unit) :
  ensure_parent dest s = (s', r) ->
  stdout s' = stdout s
  /\ forall k,
       fs s' !! k = fs s !! k
       \/ (k `prefix_of` parent dest /\ k <> []
           /\ fs s !! k = None /\ fs s' !! k = Some Dir).
Proof.
  intros H. pose proof (ensure_parent_effect _ _ _ _ H) as (Hout & _ & Hdirs).
  unfold ensure_parent in H. apply mkdir_parents_grown in H as [_ Hg].
  split; [exact Hout |]. intros k.
  destruct (Hg k) as [E|[[Hpre Hk] Hnone]]; [now left |].
  destruct (Hdirs k) as [E|[_ Hd]]; [now left |]. right. auto.
Qed.

(** ** Saving and converting *)

Section Converter.

Variable W : World.

(** [Image_save] touches no path but [dest]; when it returns, [dest] holds
    the encoded file; when it raises, [dest] is as before unless the
    encoder had already started writing. *)
Lemma Image_save_effect (img : Image W) (dest : Path) (exif_bytes : option bytes)
    (quality : Z) (s s' : State) (r : result unit) :
  Image_save W img dest exif_bytes quality s = (s', r) ->
  stdout s' = stdout s
  /\ (forall q, q <> dest -> fs s' !! q = fs s !! q)
  /\ match r with
     | Ok _ => exists data,
         jpeg_encode W img exif_bytes quality = Encoded data
         /\ fs s' !! dest = Some (File data)
     | Raise e =>
         fs s' !! dest = fs s !! dest
         \/ exists partial,
              jpeg_encode W img exif_bytes quality = EncodeFailed e partial
     end.
Proof.
  unfold Image_save.
  destruct (jpeg_encode W img exif_bytes quality) as [data|e partial|e] eqn:Enc.
  3: { intros [= <- <-]. repeat split; auto. }
  all: destruct dest as [|c dest];
    [intros [= <- <-]; repeat split; auto |].
  all: destruct (stat (fs s) (c :: dest) (parent (c :: dest))) as [[d|]|e0];
    [intros [= <- <-]; repeat split; auto | | intros [= <- <-]; repeat split; auto].
  all: destruct (fs s !! (c :: dest)) as [[d|]|] eqn:E;
    try (intros [= <- <-]; repeat split; auto; fail).
  - intros [= <- <-]. simpl. repeat split.
    + intros q Hq. now rewrite lookup_insert_ne.
    + exists data. split; [reflexivity | apply lookup_insert_eq].
  - intros [= <- <-]. simpl. repeat split.
    + intros q Hq. now rewrite lookup_insert_ne.
    + exists data. split; [reflexivity | apply lookup_insert_eq].
  - destruct (negb (exists_ (fs s) (c :: dest)) && save_removes_created W);
      intros [= <- <-]; simpl; repeat split; eauto;
      intros q Hq; [now rewrite lookup_delete_ne | now rewrite lookup_insert_ne].
  - destruct (negb (exists_ (fs s) (c :: dest)) && save_removes_created W);
      intros [= <- <-]; simpl; repeat split; eauto;
      intros q Hq; [now rewrite lookup_delete_ne | now rewrite lookup_insert_ne].
Qed.

(** The ways through the [try] block of [convert_one]: skip; or make the
    parent directories and then stop there, stop before saving, or save. *)
Lemma convert_one_body_cases (src dest : Path) (quality : Z)
    (overwrite fix_orientation : bool) (s s' : State) (r : result string) :
  convert_one_body W src dest quality overwrite fix_orientation s = (s', r) ->
  (exists_ (fs s) dest = true /\ overwrite = false /\ s' = s
   /\ r = Ok ("SKIP (exists): " ++ name src))
  \/ (exists_ (fs s) dest && negb overwrite = false
      /\ exists s1 r1, ensure_parent dest s = (s1, r1)
         /\ ((exists e, r1 = Raise e /\ s' = s1 /\ r = Raise e)
             \/ (exists e, r1 = Ok tt /\ s' = s1 /\ r = Raise e)
             \/ (exists img exif_bytes rs,
                   r1 = Ok tt
                   /\ Image_save W img dest exif_bytes quality s1 = (s', rs)
                   /\ r = match rs with
                          | Ok _ => Ok ("OK: " ++ name src)
                          | Raise e => Raise e
                          end))).
Proof.
  unfold convert_one_body, bind at 1, path_exists.
  destruct (exists_ (fs s) dest && negb overwrite) eqn:Eskip.
  { apply andb_prop in Eskip as [Ex Eow]. apply negb_true_iff in Eow.
    unfold ret. intros [= <- <-]. left. auto. }
  intros H. right. split; [reflexivity |].
  unfold bind at 1 in H.
  destruct (ensure_parent dest s) as [s1 [[]|e1]] eqn:Epar.
  2: { injection H as <- <-. exists s1, (Raise e1). split; [reflexivity |]. left. eauto. }
  exists s1, (Ok tt). split; [reflexivity |]. right.
  unfold bind at 1, Image_open in H.
  destruct (stat (fs s1) src src) as [[data|]|e2].
  2, 3: injection H as <- <-; left; eauto.
  destruct (image_decode W data) as [img|e3].
  2: { injection H as <- <-. left. eauto. }
  unfold bind at 1 in H.
  assert (forall (img0 : Image W) (ex0 : option bytes),
    (img1 <- lift (convert_RGB W img0) ;;
     Image_save W img1 dest ex0 quality ;;
     ret ("OK: " ++ name src)) s1 = (s', r) ->
    (exists e, Ok tt = Ok tt /\ s' = s1 /\ r = Raise e)
    \/ (exists img2 exif_bytes rs,
          Ok tt = Ok tt
          /\ Image_save W img2 dest exif_bytes quality s1 = (s', rs)
          /\ r = match rs with
                 | Ok _ => Ok ("OK: " ++ name src)
                 | Raise e => Raise e
                 end)) as Htail.
  { intros img0 ex0. unfold bind at 1, lift.
    destruct (convert_RGB W img0) as [img1|e4].
    2: { intros [= <- <-]. left. eauto. }
    unfold bind, ret.
    destruct (Image_save W img1 dest ex0 quality s1) as [s2 [[]|e5]] eqn:Esave.
    - intros [= <- <-]. right. exists img1, ex0, (Ok tt). auto.
    - intros [= <- <-]. right. exists img1, ex0, (Raise e5). auto. }
  destruct fix_orientation.
  - unfold bind at 1, lift in H.
    destruct (exif_transpose W img) as [img'|e4].
    2: { injection H as <- <-. left. eauto. }
    unfold bind at 1 in H.
    destruct (_fix_orientation_exif_bytes W (image_info_exif W img)) as [ex'|e5].
    2: { injection H as <- <-. left. eauto. }
    unfold ret at 1 in H. apply Htail in H. exact H.
  - unfold ret at 1 in H. apply Htail in H. exact H.
Qed.

(** [convert_one] always returns a line, never an exception. *)
Lemma convert_one_returns (src dest : Path) (quality : Z)
    (overwrite fix_orientation : bool) (s : State) :
  exists s' msg,
    convert_one W src dest quality overwrite fix_orientation s = (s', Ok msg).
Proof.
  unfold convert_one, try_except, ret.
  destruct (convert_one_body W src dest quality overwrite fix_orientation s)
    as [s1 [msg|e]]; eauto.
Qed.

(** The line tells how the [try] block ended. *)
Lemma convert_one_line (src dest : Path) (quality : Z)
    (overwrite fix_orientation : bool) (s s' : State) (msg : string) :
  convert_one W src dest quality overwrite fix_orientation s = (s', Ok msg) ->
  (convert_one_body W src dest quality overwrite fix_orientation s
   = (s', Ok msg)
   /\ (msg = "SKIP (exists): " ++ name src \/ msg = "OK: " ++ name src))
  \/ exists e,
       convert_one_body W src dest quality overwrite fix_orientation s
       = (s', Raise e)
       /\ msg = "ERROR: " ++ name src ++ " (" ++ exn_str e ++ ")".
Proof.
  unfold convert_one, try_except, ret.
  destruct (convert_one_body W src dest quality overwrite fix_orientation s)
    as [s1 [m|e]] eqn:E.
  - intros [= <- <-]. left. split; [reflexivity |].
    apply convert_one_body_cases in E.
    destruct E as [(_ & _ & _ & [= ->])|(_ & s2 & r1 & _ & Hc)]; [now left |].
    destruct Hc as [(e & _ & _ & [=])|[(e & _ & _ & [=])|(img & ex & rs & _ & _ & Hr)]].
    destruct rs; [injection Hr as -> | discriminate]. now right.
  - intros [= <- <-]. right. eauto.
Qed.

(** The line is one of the three about the source. *)
Lemma convert_one_reports (src dest : Path) (quality : Z)
    (overwrite fix_orientation : bool) (s s' : State) (msg : string) :
  convert_one W src dest quality overwrite fix_orientation s = (s', Ok msg) ->
  reports src msg.
Proof.
  intros H. apply convert_one_line in H. unfold reports.
  destruct H as [(_ & [->| ->])|(e & _ & ->)]; eauto.
Qed.

(** The line starts with ERROR exactly when the [try] block raised. *)
Lemma convert_one_error_line (src dest : Path) (quality : Z)
    (overwrite fix_orientation : bool) (s s' : State) (msg : string) :
  convert_one W src dest quality overwrite fix_orientation s = (s', Ok msg) ->
  is_error_line msg
  = failed W quality overwrite fix_orientation (mkAttempt src dest s s' msg).
Proof.
  intros H. apply convert_one_line in H. unfold failed. simpl.
  destruct H as [(-> & [->| ->])|(e & -> & ->)]; reflexivity.
Qed.

Lemma frame_refl (dest : Path) : Reflexive (frame dest).
Proof. intros s. split; [reflexivity | intros q _; now left]. Qed.

Lemma frame_trans (dest : Path) : Transitive (frame dest).
Proof.
  intros s1 s2 s3 [Ho12 H12] [Ho23 H23]. split; [congruence |].
  intros q Hq. destruct (H23 q Hq) as [E23|[E2 E3]];
    destruct (H12 q Hq) as [E12|[E1 E2']].
  - left. congruence.
  - right. split; congruence.
  - right. split; congruence.
  - congruence.
Qed.

(** Whatever its outcome, [convert_one] prints nothing and leaves every
    path other than [dest] as it was, directories made on the way
    apart. *)
Lemma convert_one_frame (src dest : Path) (quality : Z)
    (overwrite fix_orientation : bool) :
  stable (frame dest)
         (convert_one W src dest quality overwrite fix_orientation).
Proof.
  intros s s' r H.
  destruct r as [msg|e];
    [| destruct (convert_one_returns src dest quality overwrite fix_orientation s)
         as (s2 & m2 & E2); congruence].
  apply convert_one_line in H.
  assert (exists r0, convert_one_body W src dest quality overwrite
                       fix_orientation s = (s', r0)) as [r0 Hb]
    by (destruct H as [[H _]|(e & H & _)]; eauto).
  clear H. apply convert_one_body_cases in Hb.
  destruct Hb as [(_ & _ & -> & _)|(_ & s1 & r1 & Hpar & Hc)];
    [apply frame_refl |].
  apply ensure_parent_effect in Hpar. destruct Hpar as (Hout & _ & Hdirs).
  assert (frame dest s s1) as Hs1 by (split; [exact Hout | intros q _; apply Hdirs]).
  destruct Hc as [(e & _ & -> & _)|[(e & _ & -> & _)|(img & ex & rs & _ & Hsave & _)]];
    try exact Hs1.
  apply Image_save_effect in Hsave. destruct Hsave as (Hout2 & Hother & _).
  eapply frame_trans; [exact Hs1 |].
  split; [exact Hout2 | intros q Hq; left; now apply Hother].
Qed.

(** A save that returns found the destination's parent a directory and
    left it one. *)
Lemma Image_save_keeps_parent (img : Image W) (dest : Path)
    (exif_bytes : option bytes) (quality : Z) (s s' : State) :
  Image_save W img dest exif_bytes quality s = (s', Ok tt) ->
  is_dir (fs s') (parent dest) = true.
Proof.
  unfold Image_save.
  destruct (jpeg_encode W img exif_bytes quality) as [data|e partial|e];
    [| | discriminate].
  all: destruct dest as [|c0 d0] eqn:Ed; [discriminate |].
  all: rewrite <- Ed; assert (dest <> []) as Hne by (subst dest; discriminate).
  all: destruct (exists_last Hne) as (q & c & Hq); rewrite Hq.
  all: unfold parent; rewrite removelast_last.
  all: destruct (stat (fs s) (q ++ [c]) q) as [[d|]|e0] eqn:E; try discriminate.
  - assert (is_dir (<[(q ++ [c])%list := File data]> (fs s)) q = true) as Hdir.
    { unfold is_dir, stat.
      rewrite resolve_from_insert by (rewrite length_app; simpl; lia).
      fold (stat (fs s) q q). now rewrite (stat_whole _ _ q _ _ E). }
    destruct (fs s !! (q ++ [c])%list) as [[d|]|]; try discriminate;
      now intros [= <-].
  - destruct (fs s !! (q ++ [c])%list) as [[d|]|]; try discriminate;
      destruct (negb (exists_ (fs s) (q ++ [c])) && save_removes_created W);
      discriminate.
Qed.

(** A save that raises has left the destination as it was, unless the
    encoder failed after it had started writing: then the destination
    holds what was written. *)
Lemma Image_save_raises (img : Image W) (dest : Path) (exif_bytes : option bytes)
    (quality : Z) (s s' : State) (e : exn) :
  Image_save W img dest exif_bytes quality s = (s', Raise e) ->
  fs s' !! dest = fs s !! dest
  \/ exists partial,
       jpeg_encode W img exif_bytes quality = EncodeFailed e partial
       /\ fs s' !! dest = Some (File partial).
Proof.
  unfold Image_save.
  destruct (jpeg_encode W img exif_bytes quality) as [data|e1 partial|e1];
    [| | intros [= <- _]; now left].
  all: destruct dest as [|c0 d0] eqn:Ed; [intros [= <- _]; now left |].
  all: rewrite <- Ed; assert (dest <> []) as Hne by (subst dest; discriminate).
  all: destruct (exists_last Hne) as (q & c & Hq); rewrite Hq.
  all: unfold parent; rewrite removelast_last.
  all: destruct (stat (fs s) (q ++ [c]) q) as [[d|]|e0] eqn:E;
    try (intros [= <- _]; now left).
  - destruct (fs s !! (q ++ [c])%list) as [[d|]|] eqn:El; try discriminate.
    intros [= <- _]. left. exact El.
  - assert (exists_ (fs s) (q ++ [c])
            = bool_decide (is_Some (fs s !! (q ++ [c])%list))) as Hex.
    { unfold exists_. rewrite stat_snoc, E.
      now destruct (fs s !! (q ++ [c])%list). }
    rewrite Hex.
    destruct (fs s !! (q ++ [c])%list) as [[d|]|] eqn:El.
    + simpl. intros [= <- <-]. right. exists partial.
      split; [reflexivity | apply lookup_insert_eq].
    + intros [= <- _]. left. exact El.
    + simpl. destruct (save_removes_created W); intros [= <- <-].
      * left. simpl. now rewrite lookup_delete_eq.
      * right. exists partial. split; [reflexivity | apply lookup_insert_eq].
Qed.

(** The stages of the [try] block of a call that is not skipped: the
    parent directories are made; then the block fails before it has
    anything to save, or the source is read, decoded, transposed and its
    EXIF block fixed when the orientation fix is on, converted to RGB and
    handed to [save]. *)
Lemma convert_one_body_stages (src dest : Path) (quality : Z)
    (overwrite fix_orientation : bool) (s s' : State) (r : result string) :
  exists_ (fs s) dest && negb overwrite = false ->
  convert_one_body W src dest quality overwrite fix_orientation s = (s', r) ->
  exists s1 r1,
    ensure_parent dest s = (s1, r1)
    /\ ((s' = s1 /\ exists e, r = Raise e)
        \/ (r1 = Ok tt
            /\ exists raw img img1 rgb exif_bytes rs,
                 fs s !! src = Some (File raw)
                 /\ image_decode W raw = Ok img
                 /\ (if fix_orientation
                     then exif_transpose W img = Ok img1
                          /\ _fix_orientation_exif_bytes W (image_info_exif W img)
                             = Ok exif_bytes
                     else img1 = img /\ exif_bytes = image_info_exif W img)
                 /\ convert_RGB W img1 = Ok rgb
                 /\ Image_save W rgb dest exif_bytes quality s1 = (s', rs)
                 /\ r = match rs with
                        | Ok _ => Ok ("OK: " ++ name src)
                        | Raise e => Raise e
                        end)).
Proof.
  intros Hskip. unfold convert_one_body, bind at 1, path_exists.
  rewrite Hskip. unfold bind at 1.
  destruct (ensure_parent dest s) as [s1 [[]|e1]] eqn:Epar.
  2: { intros [= <- <-]. exists s1, (Raise e1). split; [reflexivity |].
       left. eauto. }
  intros H. exists s1, (Ok tt). split; [reflexivity |].
  apply ensure_parent_effect in Epar as (_ & _ & Hdirs).
  unfold bind at 1, Image_open in H.
  destruct (stat (fs s1) src src) as [[raw|]|e2] eqn:Est;
    try (injection H as <- <-; left; eauto; fail).
  assert (fs s !! src = Some (File raw)) as Hsrc.
  { assert (fs s1 !! src = Some (File raw)) as Hl.
    { destruct src as [|c src]; [discriminate |].
      apply (resolve_from_lookup (fs s1) (c :: src) [] Dir (File raw) (c :: src));
        [discriminate | exact Est]. }
    destruct (Hdirs src) as [E|[_ E]]; congruence. }
  destruct (image_decode W raw) as [img|e3] eqn:Edec;
    [| injection H as <- <-; left; eauto].
  assert (forall (img1 : Image W) (ex : option bytes),
    (img2 <- lift (convert_RGB W img1) ;;
     Image_save W img2 dest ex quality ;;
     ret ("OK: " ++ name src)) s1 = (s', r) ->
    (s' = s1 /\ exists e, r = Raise e)
    \/ exists rgb rs,
         convert_RGB W img1 = Ok rgb
         /\ Image_save W rgb dest ex quality s1 = (s', rs)
         /\ r = match rs with
                | Ok _ => Ok ("OK: " ++ name src)
                | Raise e => Raise e
                end) as Htail.
  { intros img1 ex. unfold bind at 1, lift.
    destruct (convert_RGB W img1) as [rgb|e4].
    2: { intros [= <- <-]. left. eauto. }
    unfold bind, ret.
    destruct (Image_save W rgb dest ex quality s1) as [s2 [[]|e5]] eqn:Esave.
    - intros [= <- <-]. right. exists rgb, (Ok tt). auto.
    - intros [= <- <-]. right. exists rgb, (Raise e5). auto. }
  destruct fix_orientation.
  - unfold bind at 1 in H. unfold bind at 1, lift in H.
    destruct (exif_transpose W img) as [img1|e4] eqn:Etr;
      [| injection H as <- <-; left; eauto].
    unfold bind at 1 in H.
    destruct (_fix_orientation_exif_bytes W (image_info_exif W img))
      as [ex|e5] eqn:Efix;
      [| injection H as <- <-; left; eauto].
    unfold ret at 1 in H. cbn [fst snd] in H.
    apply Htail in H as [H|(rgb & rs & Hrgb & Hsave & Hr)]; [now left |].
    right. split; [reflexivity |].
    exists raw, img, img1, rgb, ex, rs. auto 10.
  - unfold bind at 1 in H. unfold ret at 1 in H. cbn [fst snd] in H.
    apply Htail in H as [H|(rgb & rs & Hrgb & Hsave & Hr)]; [now left |].
    right. split; [reflexivity |].
    exists raw, img, img, rgb, (image_info_exif W img), rs. auto 10.
Qed.

End Converter.

(** ** Discovery *)

Lemma find_heic_files_elem (m : gmap Path node) (root p : Path) :
  p ∈ find_heic_files m root
  <-> below root p = true /\ is_file m p = true /\ suffix p ∈ HEIC_EXTS.
Proof.
  unfold find_heic_files, rglob_star, in_HEIC_EXTS.
  rewrite !list_elem_of_filter, andb_true_iff, bool_decide_eq_true.
  split.
  - intros ([Hf Hs] & Hb & _). auto.
  - intros (Hb & Hf & Hs). repeat split; try assumption.
    destruct (is_file_lookup _ _ Hf) as [data E].
    apply list_elem_of_fmap. exists (p, File data). split; [reflexivity |].
    now apply elem_of_map_to_list.
Qed.

Lemma HEIC_EXTS_lower (sfx : string) :
  sfx ∈ HEIC_EXTS -> lower sfx ∈ [".heic"; ".heif"].
Proof.
  rewrite !list_elem_of_In. unfold HEIC_EXTS. simpl In.
  intros [<-|[<-|[<-|[<-|[]]]]]; vm_compute; auto.
Qed.

(** What discovery selects: the paths below the folder that are regular
    files and whose suffix is spelled [.heic], [.heif], [.HEIC] or
    [.HEIF]; every one of them matches HEIC or HEIF case-insensitively. *)
Lemma find_heic_files_exact_spelling (m : gmap Path node) (root p : Path) :
  (p ∈ find_heic_files m root
   <-> below root p = true /\ is_file m p = true
       /\ suffix p ∈ [".heic"; ".heif"; ".HEIC"; ".HEIF"])
  /\ (p ∈ find_heic_files m root -> spec_matches_extension p = true).
Proof.
  split; [apply find_heic_files_elem |].
  intros H. apply find_heic_files_elem in H as (_ & _ & Hs).
  unfold spec_matches_extension. apply bool_decide_eq_true.
  now apply HEIC_EXTS_lower.
Qed.

(** Every discovered file has a destination: it lies below the input
    folder and has a name. *)
Lemma found_has_destination (m : gmap Path node) (root output_root p : Path) :
  p ∈ find_heic_files m root ->
  exists dest, make_output_path p root output_root = Ok dest.
Proof.
  intros H. apply find_heic_files_elem in H as (Hb & _ & Hs).
  apply below_inv in Hb as (rel & Hrel & ->).
  assert (name rel <> "") as Hname.
  { intros E. unfold suffix in Hs. rewrite (name_app _ _ Hrel), E in Hs.
    apply list_elem_of_In in Hs. vm_compute in Hs.
    destruct Hs as [?|[?|[?|[?|[]]]]]; discriminate. }
  rewrite (make_output_path_below _ _ _ Hrel Hname). eauto.
Qed.

(** ** The batch *)

Section Batch.

Variable W : World.
Variables (input_dir output_dir : Path) (quality : Z).
Variables (overwrite fix_orientation : bool).

Local Abbreviation loop files done errors :=
  (batch_loop W files input_dir output_dir quality overwrite fix_orientation
              done errors).
Local Abbreviation round :=
  (attempted W input_dir output_dir quality overwrite fix_orientation).
Local Abbreviation lost := (failed W quality overwrite fix_orientation).

(** One round of the loop on a file that has a destination: the line of
    [convert_one] is printed and the loop goes on, unless the console
    refuses the line. *)
Lemma batch_loop_step (src dest : Path) (files : list Path) (done errors : nat)
    (s : State) :
  make_output_path src input_dir output_dir = Ok dest ->
  exists s1 msg,
    convert_one W src dest quality overwrite fix_orientation s = (s1, Ok msg)
    /\ stdout s1 = stdout s
    /\ loop (src :: files) done errors s
       = match print_error W msg with
         | Some e => (s1, Raise e)
         | None =>
             loop files (S done)
                  (if is_error_line msg then S errors else errors)
                  (mkState (fs s1) (stdout s1 ++ [msg]))
         end.
Proof.
  intros Hdest.
  destruct (convert_one_returns W src dest quality overwrite fix_orientation s)
    as (s1 & msg & Hc).
  exists s1, msg. split; [exact Hc |]. split.
  - exact (proj1 (convert_one_frame W _ _ _ _ _ _ _ _ Hc)).
  - cbn [batch_loop]. unfold bind at 1, lift. rewrite Hdest.
    unfold bind at 1. rewrite Hc. unfold bind, print.
    destruct (print_error W msg); reflexivity.
Qed.

(** When the loop returns, it has gone through one round per file, in
    order, every line was taken by the console, [done] grew by the number
    of rounds and [errors] by the number of rounds that failed. *)
Lemma batch_loop_log (files : list Path) :
  forall done errors s s' d e,
    loop files done errors s = (s', Ok (d, e)) ->
    exists log,
      map at_src log = files
      /\ Forall round log
      /\ chained s log s'
      /\ Forall (fun a => print_error W (at_line a) = None) log
      /\ d = (done + length log)%nat
      /\ e = (errors + length (List.filter lost log))%nat.
Proof.
  induction files as [|src files IH]; intros done errors s s' d e.
  - simpl. unfold ret. intros [= <- <- <-].
    exists []. simpl. repeat split; auto with lia.
  - destruct (make_output_path src input_dir output_dir) as [dest|err] eqn:Hd.
    + destruct (batch_loop_step src dest files done errors s Hd)
        as (s1 & msg & Hc & _ & ->).
      destruct (print_error W msg) as [e0|] eqn:Hp; [discriminate |].
      intros H. apply IH in H as (log & Hsrc & Hall & Hch & Hpr & -> & ->).
      exists (mkAttempt src dest s s1 msg :: log).
      split; [simpl; now rewrite Hsrc |].
      split; [constructor; [split; [exact Hd | exact Hc] | exact Hall] |].
      split; [split; [reflexivity | exact Hch] |].
      split; [constructor; [exact Hp | exact Hpr] |].
      split; [simpl; lia |].
      cbn [List.filter].
      rewrite <- (convert_one_error_line W _ _ _ _ _ _ _ _ Hc).
      destruct (is_error_line msg); simpl; lia.
    + cbn [batch_loop]. unfold bind at 1, lift. rewrite Hd.
      discriminate.
Qed.

(** The lines of the rounds are what was printed. *)
Lemma chained_stdout (log : list attempt) :
  Forall round log ->
  forall s s', chained s log s' ->
    stdout s' = (stdout s ++ map at_line log)%list.
Proof.
  induction 1 as [|a log [_ Hc] _ IH]; intros s s'; simpl.
  - intros ->. now rewrite app_nil_r.
  - intros [Hs Hch]. apply IH in Hch. simpl in Hch.
    rewrite Hch, (proj1 (convert_one_frame W _ _ _ _ _ _ _ _ Hc)), Hs.
    now rewrite <- app_assoc.
Qed.

(** The loop returns whenever every file has a destination and the
    console takes every line about a file. *)
Lemma batch_loop_returns (files : list Path) :
  (forall src, src ∈ files ->
     exists dest, make_output_path src input_dir output_dir = Ok dest) ->
  (forall src msg, src ∈ files -> reports src msg -> print_error W msg = None) ->
  forall done errors s, exists s' d e, loop files done errors s = (s', Ok (d, e)).
Proof.
  induction files as [|src files IH]; intros Hall Hcon done errors s.
  - simpl. unfold ret. eauto.
  - destruct (Hall src) as [dest Hd]; [apply elem_of_cons; now left |].
    destruct (batch_loop_step src dest files done errors s Hd)
      as (s1 & msg & Hc & _ & ->).
    rewrite (Hcon src msg); [| apply elem_of_cons; now left
                              | exact (convert_one_reports W _ _ _ _ _ _ _ _ Hc)].
    apply IH.
    + intros src' Hin. apply Hall. apply elem_of_cons. now right.
    + intros src' msg' Hin. apply Hcon. apply elem_of_cons. now right.
Qed.


(** With HEIF support present and registered, [run_batch] is the loop
    over the discovered files. *)
Lemma run_batch_ready (s : State) :
  heif_available W = true -> register_heif_opener W = Ok tt ->
  run_batch W input_dir output_dir quality overwrite fix_orientation s
  = match loop (find_heic_files (fs s) input_dir) 0 0 s with
    | (s', Ok r) =>
        (s', Ok (length (find_heic_files (fs s) input_dir), fst r, snd r))
    | (s', Raise e) => (s', Raise e)
    end.
Proof.
  intros Havail Hreg. unfold run_batch, bind, try_except, lift, ret.
  rewrite Havail, Hreg. cbn [negb].
  destruct (batch_loop W _ _ _ _ _ _ 0 0 s) as [s' [r|e]]; reflexivity.
Qed.

(** Without HEIF support, or when its registration raises, [run_batch]
    raises [RuntimeError] at once. *)
Lemma run_batch_not_ready (s : State) :
  heif_available W = false \/ (exists e, register_heif_opener W = Raise e) ->
  exists msg,
    run_batch W input_dir output_dir quality overwrite fix_orientation s
    = (s, Raise (RuntimeError msg)).
Proof.
  unfold run_batch. intros [Havail|[e Hreg]].
  - rewrite Havail. simpl. unfold raise. eauto.
  - destruct (heif_available W); simpl; unfold raise; [| eauto].
    unfold bind, try_except, lift. rewrite Hreg. eauto.
Qed.

(** A run of [run_batch] that returns went through the loop. *)
Lemma run_batch_returned (s s' : State) (total done errors : nat) :
  run_batch W input_dir output_dir quality overwrite fix_orientation s
  = (s', Ok (total, done, errors)) ->
  total = length (find_heic_files (fs s) input_dir)
  /\ loop (find_heic_files (fs s) input_dir) 0 0 s = (s', Ok (done, errors)).
Proof.
  destruct (heif_available W) eqn:Havail.
  2: { intros H. destruct (run_batch_not_ready s (or_introl Havail)) as [msg E].
       congruence. }
  destruct (register_heif_opener W) as [[]|e] eqn:Hreg.
  2: { intros H.
       destruct (run_batch_not_ready s (or_intror (ex_intro _ e Hreg))) as [msg E].
       congruence. }
  rewrite (run_batch_ready s Havail Hreg).
  destruct (loop (find_heic_files (fs s) input_dir) 0 0 s) as [s1 [[d e]|err]];
    [| discriminate].
  simpl. now intros [= <- <- <- <-].
Qed.


(** What a run of [run_batch] that returns went through. *)
Lemma run_batch_log (s s' : State) (total done errors : nat) :
  run_batch W input_dir output_dir quality overwrite fix_orientation s
  = (s', Ok (total, done, errors)) ->
  exists log,
    map at_src log = find_heic_files (fs s) input_dir
    /\ Forall round log
    /\ chained s log s'
    /\ Forall (fun a => print_error W (at_line a) = None) log
    /\ total = length log /\ done = length log
    /\ errors = length (List.filter lost log).
Proof.
  intros H. apply run_batch_returned in H as [-> Hloop].
  apply batch_loop_log in Hloop as (log & Hsrc & Hall & Hch & Hpr & -> & ->).
  exists log. rewrite <- Hsrc, length_map. auto 10.
Qed.

End Batch.

(** ** The orientation fixer *)

Lemma fix_orientation_passes (W : World) (exif_bytes : option bytes) :
  truthy exif_bytes = false \/ piexif W = None ->
  _fix_orientation_exif_bytes W exif_bytes = Ok exif_bytes.
Proof.
  unfold _fix_orientation_exif_bytes.
  intros [H| ->]; destruct exif_bytes as [raw|]; try reflexivity.
  destruct (piexif W); [now rewrite H | reflexivity].
Qed.

Lemma fix_orientation_degrades (W : World) (lib : Piexif) (raw : bytes) (e : exn) :
  piexif W = Some lib -> fix_orientation_body lib raw = Raise e ->
  _fix_orientation_exif_bytes W (Some raw) = Ok (Some raw).
Proof.
  intros Hlib Hbody. unfold _fix_orientation_exif_bytes. rewrite Hlib.
  destruct (truthy (Some raw)); [rewrite Hbody |]; reflexivity.
Qed.

Lemma fix_orientation_returns (W : World) (exif_bytes : option bytes) :
  exists r, _fix_orientation_exif_bytes W exif_bytes = Ok r.
Proof.
  unfold _fix_orientation_exif_bytes.
  destruct exif_bytes as [raw|]; [| eauto].
  destruct (piexif W) as [lib|]; [| eauto].
  destruct (truthy (Some raw)); [| eauto].
  destruct (fix_orientation_body lib raw); simpl; eauto.
Qed.

(** * The claims *)

(** C1.  [HEIC_EXTS] spells each extension in lower case and in upper
    case and in no other way, so discovery selects [in/a/b.HEIC] and
    misses its neighbour [in/a/d.Heic], a regular file below the input
    folder whose extension equals [.heic] case-insensitively. *)
Theorem find_heic_files_misses_mixed_case :
  below ["in"] ["in"; "a"; "d.Heic"] = true
  /\ is_file Sample.photos_fs ["in"; "a"; "d.Heic"] = true
  /\ spec_matches_extension ["in"; "a"; "d.Heic"] = true
  /\ (["in"; "a"; "d.Heic"] ∉ find_heic_files Sample.photos_fs ["in"])
  /\ ["in"; "a"; "b.HEIC"] ∈ find_heic_files Sample.photos_fs ["in"].
Proof.
  split; [vm_compute; reflexivity |].
  split; [vm_compute; reflexivity |].
  split; [vm_compute; reflexivity |].
  split.
  - intros H. apply find_heic_files_elem in H as (_ & _ & Hs).
    apply list_elem_of_In in Hs. vm_compute in Hs.
    destruct Hs as [?|[?|[?|[?|[]]]]]; discriminate.
  - apply find_heic_files_elem. split; [vm_compute; reflexivity |].
    split; [vm_compute; reflexivity |].
    apply list_elem_of_In. vm_compute. auto.
Qed.

(** C2.  A run of [run_batch] that returns [(total, done, errors)] has
    [done = total], the number of discovered files.  It went through one
    round per discovered file, in discovery order: each round is the call
    of [convert_one] on the file and its destination in the state the
    round before it left, followed by the printing of the line returned.
    [done] is the number of these rounds, whatever their outcome, and
    [errors] the number of those whose [try] block raised, which are the
    rounds with an ERROR line.  With HEIF support in place the run does
    return whenever the console takes every line about a discovered
    file, and an empty discovery gives [(0, 0, 0)]. *)
Theorem run_batch_done_equals_total (W : World) (input_dir output_dir : Path)
    (quality : Z) (overwrite fix_orientation : bool) (s : State) :
  (forall s' total done errors,
     run_batch W input_dir output_dir quality overwrite fix_orientation s
     = (s', Ok (total, done, errors)) ->
     done = total
     /\ total = length (find_heic_files (fs s) input_dir)
     /\ (errors <= done)%nat
     /\ exists log,
          map at_src log = find_heic_files (fs s) input_dir
          /\ Forall (attempted W input_dir output_dir quality overwrite
                               fix_orientation) log
          /\ chained s log s'
          /\ done = length log
          /\ errors
             = length (List.filter (failed W quality overwrite fix_orientation)
                                   log)
          /\ Forall (fun a => is_error_line (at_line a)
                              = failed W quality overwrite fix_orientation a)
                    log
          /\ stdout s' = (stdout s ++ map at_line log)%list)
  /\ (heif_available W = true -> register_heif_opener W = Ok tt ->
      (forall src msg,
         src ∈ find_heic_files (fs s) input_dir -> reports src msg ->
         print_error W msg = None) ->
      exists s' n e,
        run_batch W input_dir output_dir quality overwrite fix_orientation s
        = (s', Ok (n, n, e)))
  /\ (heif_available W = true -> register_heif_opener W = Ok tt ->
      find_heic_files (fs s) input_dir = [] ->
      run_batch W input_dir output_dir quality overwrite fix_orientation s
      = (s, Ok (0, 0, 0)%nat)).
Proof.
  assert (forall s' total done errors,
     run_batch W input_dir output_dir quality overwrite fix_orientation s
     = (s', Ok (total, done, errors)) -> done = total) as Hsame.
  { intros s' total done errors H.
    apply run_batch_log in H as (log & _ & _ & _ & _ & -> & -> & _).
    reflexivity. }
  split; [| split].
  - intros s' total done errors H. split; [exact (Hsame _ _ _ _ H) |].
    pose proof (run_batch_returned _ _ _ _ _ _ _ _ _ _ _ H) as [Htotal _].
    split; [exact Htotal |].
    apply run_batch_log in H as (log & Hsrc & Hall & Hch & _ & _ & -> & ->).
    split; [apply List.filter_length_le |].
    exists log. repeat split; try assumption.
    + clear Hch Hsrc. induction Hall as [|a log [_ Hc] _ IH]; constructor.
      * destruct a as [src dest s0 s1 msg]. simpl in *.
        exact (convert_one_error_line W _ _ _ _ _ _ _ _ Hc).
      * exact IH.
    + exact (chained_stdout W _ _ _ _ _ log Hall s s' Hch).
  - intros Havail Hreg Hcon.
    destruct (batch_loop_returns W input_dir output_dir quality overwrite
                fix_orientation (find_heic_files (fs s) input_dir)
                (fun src Hin => found_has_destination _ _ output_dir _ Hin)
                Hcon 0%nat 0%nat s)
      as (s' & d & e & Hloop).
    assert (run_batch W input_dir output_dir quality overwrite fix_orientation s
            = (s', Ok (length (find_heic_files (fs s) input_dir), d, e))) as Hrun
      by (rewrite (run_batch_ready W _ _ _ _ _ s Havail Hreg), Hloop; reflexivity).
    rewrite (Hsame _ _ _ _ Hrun) in Hrun. eauto.
  - intros Havail Hreg Hnone.
    rewrite (run_batch_ready W _ _ _ _ _ s Havail Hreg), Hnone. reflexivity.
Qed.

Lemma run_batch_done_equals_total_witness :
  (exists s' n e,
     run_batch Sample.world ["in"] ["out"] 95 false true
               (Sample.start Sample.photos_fs)
     = (s', Ok (n, n, e)))
  /\ exists log,
       map at_src log = find_heic_files Sample.accent_fs ["in"]
       /\ 2%nat = length log
       /\ 0%nat = length (List.filter (failed Sample.world 95 false true) log)
       /\ ["OK: café.heic"; "OK: z.heic"] = ([] ++ map at_line log)%list.
Proof.
  split.
  - apply (proj1 (proj2 (run_batch_done_equals_total Sample.world ["in"] ["out"]
                           95 false true (Sample.start Sample.photos_fs))));
      try reflexivity.
    intros src msg _ _. unfold print_error.
    destruct (is_ascii_text msg); reflexivity.
  - destruct (proj1 (run_batch_done_equals_total Sample.world ["in"] ["out"]
                       95 false true (Sample.start Sample.accent_fs))
                (run_batch Sample.world ["in"] ["out"] 95 false true
                   (Sample.start Sample.accent_fs)).1 2%nat 2%nat 0%nat)
      as (_ & _ & _ & log & Hsrc & _ & _ & Hdone & Herr & _ & Hout).
    + vm_compute. reflexivity.
    + exists log. auto.
Defined.

(** C3, as the code has it.  For a source strictly below the input root
    the mapper returns the output root, then the source's relative
    directories, then its name with the suffix replaced by [.jpg]
    (appended when the name has none), whatever the case of the old
    extension; when the input root is not a leading part of the source
    it raises [ValueError]; the input root itself is not rejected but
    mapped to the output root with its own suffix replaced. *)
Theorem make_output_path_mirrors_tree (input_root output_root src : Path) :
  (below input_root src = true -> name src <> "" ->
   exists rel,
     src = (input_root ++ rel)%list /\ rel <> []
     /\ make_output_path src input_root output_root
        = Ok (output_root ++ parent rel
                ++ [name_with_suffix (name rel) ".jpg"])%list)
  /\ (forall stem ext,
        stem <> "" -> ext <> "" -> rfind_dot ext = None ->
        name_with_suffix (stem ++ "." ++ ext) ".jpg" = stem ++ ".jpg")
  /\ (forall n, name_suffix n = "" -> name_with_suffix n ".jpg" = n ++ ".jpg")
  /\ (~ input_root `prefix_of` src ->
      exists msg,
        make_output_path src input_root output_root = Raise (ValueError msg))
  /\ make_output_path input_root input_root output_root
     = with_suffix output_root ".jpg".
Proof.
  split; [| split; [| split; [| split]]].
  - intros Hb Hname. apply below_inv in Hb as (rel & Hrel & ->).
    exists rel. split; [reflexivity |]. split; [exact Hrel |].
    rewrite (name_app _ _ Hrel) in Hname.
    now apply make_output_path_below.
  - intros stem ext Hstem Hext Hdot.
    now apply (name_with_suffix_app stem ext ".jpg").
  - intros n Hn. unfold name_with_suffix. rewrite Hn.
    now destruct (decide ("" = "")).
  - apply make_output_path_outside.
  - apply make_output_path_root.
Qed.

Lemma make_output_path_mirrors_tree_witness :
  make_output_path ["tmp"; "in"; "sub"; "x.HEIC"] ["tmp"; "in"] ["tmp"; "out"]
  = Ok ["tmp"; "out"; "sub"; "x.jpg"]
  /\ name_with_suffix "x.HeiC" ".jpg" = "x.jpg"
  /\ exists msg,
       make_output_path ["elsewhere"; "x.heic"] ["tmp"; "in"] ["tmp"; "out"]
       = Raise (ValueError msg).
Proof.
  split; [| split].
  - destruct (proj1 (make_output_path_mirrors_tree ["tmp"; "in"] ["tmp"; "out"]
                       ["tmp"; "in"; "sub"; "x.HEIC"]))
      as (rel & Hsrc & _ & Hmap).
    + reflexivity.
    + discriminate.
    + simpl in Hsrc. injection Hsrc as Hrel. subst rel. exact Hmap.
  - apply (proj1 (proj2 (make_output_path_mirrors_tree [] [] [])) "x" "HeiC");
      [discriminate | discriminate | reflexivity].
  - apply (proj1 (proj2 (proj2 (proj2
             (make_output_path_mirrors_tree ["tmp"; "in"] ["tmp"; "out"]
                ["elsewhere"; "x.heic"]))))).
    intros [rel Hrel]. discriminate Hrel.
Defined.

(** C3 as stated fails: the input root is not one of its own
    descendants, and the mapper returns a path for it instead of
    failing; that path does not even lie under the output root. *)
Lemma make_output_path_accepts_root :
  below ["in"] ["in"] = false
  /\ make_output_path ["in"] ["in"] ["out"] = Ok ["out.jpg"]
  /\ ~ ["out"] `prefix_of` ["out.jpg"].
Proof.
  split; [reflexivity |]. split; [reflexivity |].
  apply strip_root_None. reflexivity.
Qed.

(** C4, as the code has it.  [convert_one] prints nothing, and away from
    the destination it only makes directories, at free paths that are
    leading parts of the destination's parent.  A skip leaves the state
    as it was.  After an OK the destination's parent, with every
    directory above it, is there and the destination holds a file.
    After an ERROR the destination is as before, unless the run got as
    far as the JPEG writer, with the source read, decoded and converted,
    and the writer failed on that image after it had started writing:
    then the destination holds the bytes written so far, which the code
    does not remove. *)
Theorem convert_one_writes (W : World) (src dest : Path) (quality : Z)
    (overwrite fix_orientation : bool) (s s' : State) (msg : string) :
  convert_one W src dest quality overwrite fix_orientation s = (s', Ok msg) ->
  stdout s' = stdout s
  /\ (forall k, k <> dest ->
        fs s' !! k = fs s !! k
        \/ (k `prefix_of` parent dest /\ k <> []
            /\ fs s !! k = None /\ fs s' !! k = Some Dir))
  /\ (String.prefix "SKIP (exists): " msg = true -> s' = s)
  /\ (String.prefix "OK: " msg = true ->
      is_dir (fs s') (parent dest) = true
      /\ (forall k, k `prefix_of` parent dest -> k <> [] ->
            fs s' !! k = Some Dir)
      /\ exists data, fs s' !! dest = Some (File data))
  /\ (String.prefix "ERROR: " msg = true ->
      fs s' !! dest = fs s !! dest
      \/ exists raw img img1 rgb exif_bytes e partial,
           fs s !! src = Some (File raw)
           /\ image_decode W raw = Ok img
           /\ (if fix_orientation
               then exif_transpose W img = Ok img1
                    /\ _fix_orientation_exif_bytes W (image_info_exif W img)
                       = Ok exif_bytes
               else img1 = img /\ exif_bytes = image_info_exif W img)
           /\ convert_RGB W img1 = Ok rgb
           /\ jpeg_encode W rgb exif_bytes quality = EncodeFailed e partial
           /\ msg = "ERROR: " ++ name src ++ " (" ++ exn_str e ++ ")"
           /\ fs s' !! dest = Some (File partial)).
Proof.
  intros H. apply convert_one_line in H.
  destruct (exists_ (fs s) dest && negb overwrite) eqn:Hskip.
  { assert (s' = s /\ msg = "SKIP (exists): " ++ name src) as [-> ->].
    { destruct H as [(Hb & _)|(e & Hb & _)];
        unfold convert_one_body, bind at 1, path_exists in Hb;
        rewrite Hskip in Hb; unfold ret in Hb;
        [now injection Hb as <- <- | discriminate]. }
    split; [reflexivity |]. split; [intros k _; now left |].
    split; [reflexivity |]. split; discriminate. }
  assert (forall s1 r1, ensure_parent dest s = (s1, r1) ->
    forall rs, (rs = s1 \/ (stdout rs = stdout s1
                            /\ forall k, k <> dest -> fs rs !! k = fs s1 !! k)) ->
    stdout rs = stdout s
    /\ forall k, k <> dest ->
         fs rs !! k = fs s !! k
         \/ (k `prefix_of` parent dest /\ k <> []
             /\ fs s !! k = None /\ fs rs !! k = Some Dir)) as Hframe.
  { intros s1 r1 Hpar rs Hrs. apply ensure_parent_makes in Hpar as [Hout Hmk].
    destruct Hrs as [->|[Hout2 Hother]].
    - split; [exact Hout |]. intros k _. apply Hmk.
    - split; [congruence |]. intros k Hk. rewrite (Hother k Hk). apply Hmk. }
  destruct H as [(Hb & Hmsg)|(e & Hb & ->)];
    apply (convert_one_body_stages W _ _ _ _ _ _ _ _ Hskip) in Hb
      as (s1 & r1 & Hpar & Hc).
  - destruct Hc as [(_ & e & [=])|(-> & raw & img & img1 & rgb & ex & rs
                                    & Hsrc & Hdec & Hfix & Hrgb & Hsave & Hr)].
    destruct rs as [[]|e]; [injection Hr as -> | discriminate].
    pose proof (Image_save_effect W _ _ _ _ _ _ _ Hsave)
      as (Hout2 & Hother & data & _ & Hd).
    destruct (Hframe _ _ Hpar s' (or_intror (conj Hout2 Hother))) as [Ho Hf].
    split; [exact Ho |]. split; [exact Hf |].
    split; [discriminate |]. split; [| discriminate]. intros _.
    pose proof (Image_save_keeps_parent W _ _ _ _ _ _ Hsave) as Hdir.
    split; [exact Hdir |].
    split; [intros k Hpre Hk; now apply (is_dir_prefix _ (parent dest)) |].
    eauto.
  - split; [| split; [| split; [discriminate | split; [discriminate |]]]].
    + destruct Hc as [(-> & _)|(-> & raw & img & img1 & rgb & ex & rs
                                 & _ & _ & _ & _ & Hsave & _)].
      * exact (proj1 (Hframe _ _ Hpar s1 (or_introl eq_refl))).
      * pose proof (Image_save_effect W _ _ _ _ _ _ _ Hsave)
          as (Hout2 & Hother & _).
        exact (proj1 (Hframe _ _ Hpar s' (or_intror (conj Hout2 Hother)))).
    + destruct Hc as [(-> & _)|(-> & raw & img & img1 & rgb & ex & rs
                                 & _ & _ & _ & _ & Hsave & _)].
      * exact (proj2 (Hframe _ _ Hpar s1 (or_introl eq_refl))).
      * pose proof (Image_save_effect W _ _ _ _ _ _ _ Hsave)
          as (Hout2 & Hother & _).
        exact (proj2 (Hframe _ _ Hpar s' (or_intror (conj Hout2 Hother)))).
    + intros _.
      pose proof (ensure_parent_effect _ _ _ _ Hpar) as (_ & Hdest & _).
      destruct Hc as [(-> & _)|(-> & raw & img & img1 & rgb & ex & rs
                                 & Hsrc & Hdec & Hfix & Hrgb & Hsave & Hr)];
        [now left |].
      destruct rs as [[]|e1]; [discriminate | injection Hr as ->].
      apply Image_save_raises in Hsave as [Hsame|(partial & Henc & Hd)].
      * left. congruence.
      * right. exists raw, img, img1, rgb, ex, e1, partial. auto 10.
Qed.

Lemma convert_one_writes_witness :
  let s' := (convert_one Sample.world ["in"; "a"; "b.HEIC"]
               ["out"; "a"; "b.jpg"] 95 false true
               (Sample.start Sample.photos_fs)).1 in
  is_dir (fs s') (parent ["out"; "a"; "b.jpg"]) = true
  /\ (forall k, k `prefix_of` parent ["out"; "a"; "b.jpg"] -> k <> [] ->
        fs s' !! k = Some Dir)
  /\ exists data, fs s' !! ["out"; "a"; "b.jpg"] = Some (File data).
Proof.
  intros s'.
  refine (proj1 (proj2 (proj2 (proj2 (convert_one_writes Sample.world
            ["in"; "a"; "b.HEIC"] ["out"; "a"; "b.jpg"] 95 false true
            (Sample.start Sample.photos_fs) s' "OK: b.HEIC" _)))) _).
  - vm_compute. reflexivity.
  - reflexivity.
Defined.

(** C4 as stated fails: converting the undecodable [in/sub/x.HEIC] of the
    self-test ends in an ERROR line, yet the directory [out/sub] has been
    made on the way. *)
Lemma convert_one_failed_made_directory :
  let r := convert_one Sample.world ["in"; "sub"; "x.HEIC"]
             ["out"; "sub"; "x.jpg"] 95 false true
             (Sample.start Sample.selftest_fs) in
  r.2 = Ok "ERROR: x.HEIC (cannot identify image file)"
  /\ Sample.selftest_fs !! ["out"; "sub"] = None
  /\ fs r.1 !! ["out"; "sub"] = Some Dir.
Proof. vm_compute. repeat split. Qed.



(** C6.  [_fix_orientation_exif_bytes] never raises; it returns its
    argument as it is when the argument is [None] or empty or when
    [piexif] is missing, and also when [piexif.load] or [piexif.dump]
    raises. *)
Theorem fix_orientation_never_raises (W : World) (exif_bytes : option bytes) :
  (exists r, _fix_orientation_exif_bytes W exif_bytes = Ok r)
  /\ _fix_orientation_exif_bytes W None = Ok None
  /\ _fix_orientation_exif_bytes W (Some []) = Ok (Some [])
  /\ (piexif W = None -> _fix_orientation_exif_bytes W exif_bytes = Ok exif_bytes)
  /\ (forall lib raw e,
        piexif W = Some lib -> exif_bytes = Some raw ->
        piexif_load lib raw = Raise e ->
        _fix_orientation_exif_bytes W exif_bytes = Ok exif_bytes)
  /\ (forall lib raw d e,
        piexif W = Some lib -> exif_bytes = Some raw ->
        piexif_load lib raw = Ok d ->
        piexif_dump lib (reset_orientation d) = Raise e ->
        _fix_orientation_exif_bytes W exif_bytes = Ok exif_bytes).
Proof.
  split; [apply fix_orientation_returns |].
  split; [apply fix_orientation_passes; now left |].
  split; [apply fix_orientation_passes; now left |].
  split; [intros H; apply fix_orientation_passes; now right |].
  split.
  - intros lib raw e Hlib -> Hload.
    apply (fix_orientation_degrades W lib raw e Hlib).
    unfold fix_orientation_body. now rewrite Hload.
  - intros lib raw d e Hlib -> Hload Hdump.
    apply (fix_orientation_degrades W lib raw e Hlib).
    unfold fix_orientation_body. rewrite Hload. exact Hdump.
Qed.

Lemma fix_orientation_never_raises_witness :
  _fix_orientation_exif_bytes Sample.world
    (Some (list_byte_of_string "Exif-sideways"))
  = Ok (Some (list_byte_of_string "Exif-sideways"))
  /\ _fix_orientation_exif_bytes Sample.world_with_piexif
       (Some (list_byte_of_string "junk"))
     = Ok (Some (list_byte_of_string "junk")).
Proof.
  split.
  - apply (proj1 (proj2 (proj2 (proj2
             (fix_orientation_never_raises Sample.world
                (Some (list_byte_of_string "Exif-sideways"))))))).
    reflexivity.
  - apply (proj1 (proj2 (proj2 (proj2 (proj2
             (fix_orientation_never_raises Sample.world_with_piexif
                (Some (list_byte_of_string "junk")))))))
             Sample.strict_piexif (list_byte_of_string "junk")
             (LibraryError "unpack requires a buffer of 2 bytes"));
      reflexivity.
Defined.

(** C7.  When the destination exists and [overwrite] is false,
    [convert_one] returns the SKIP line and the state, filesystem
    included, is the one it started from. *)
Theorem convert_one_skips_existing (W : World) (src dest : Path) (quality : Z)
    (fix_orientation : bool) (s : State) :
  exists_ (fs s) dest = true ->
  convert_one W src dest quality false fix_orientation s
  = (s, Ok ("SKIP (exists): " ++ name src)).
Proof.
  intros Hex. unfold convert_one, try_except, convert_one_body, bind, path_exists.
  rewrite Hex. reflexivity.
Qed.

Lemma convert_one_skips_existing_witness :
  convert_one Sample.world ["in"; "a"; "b.HEIC"] ["in"; "a"; "c.jpg"] 95 false
              true (Sample.start Sample.photos_fs)
  = (Sample.start Sample.photos_fs, Ok "SKIP (exists): b.HEIC").
Proof.
  apply (convert_one_skips_existing Sample.world ["in"; "a"; "b.HEIC"]
           ["in"; "a"; "c.jpg"] 95 true (Sample.start Sample.photos_fs)).
  vm_compute. reflexivity.
Defined.

(** C8.  Without HEIF support, or when registering it raises,
    [run_batch] raises [RuntimeError] and the state is untouched: no
    file was converted and no line printed. *)
Theorem run_batch_fails_fast (W : World) (input_dir output_dir : Path)
    (quality : Z) (overwrite fix_orientation : bool) (s : State) :
  heif_available W = false \/ (exists e, register_heif_opener W = Raise e) ->
  exists msg,
    run_batch W input_dir output_dir quality overwrite fix_orientation s
    = (s, Raise (RuntimeError msg)).
Proof. apply run_batch_not_ready. Qed.

Lemma run_batch_fails_fast_witness :
  exists msg,
    run_batch Sample.world_without_heif ["in"] ["out"] 95 false true
              (Sample.start Sample.photos_fs)
    = (Sample.start Sample.photos_fs, Raise (RuntimeError msg)).
Proof.
  apply (run_batch_fails_fast Sample.world_without_heif ["in"] ["out"] 95 false
           true (Sample.start Sample.photos_fs)).
  left. reflexivity.
Defined.



(** C10.  [convert_one] returns a line for every input and never an
    exception, and the line starts with exactly one of [OK: ],
    [SKIP (exists): ] and [ERROR: ]. *)
Theorem convert_one_total (W : World) (src dest : Path) (quality : Z)
    (overwrite fix_orientation : bool) (s : State) :
  exists s' msg,
    convert_one W src dest quality overwrite fix_orientation s = (s', Ok msg)
    /\ ((String.prefix "OK: " msg = true
         /\ String.prefix "SKIP (exists): " msg = false
         /\ String.prefix "ERROR: " msg = false)
        \/ (String.prefix "OK: " msg = false
            /\ String.prefix "SKIP (exists): " msg = true
            /\ String.prefix "ERROR: " msg = false)
        \/ (String.prefix "OK: " msg = false
            /\ String.prefix "SKIP (exists): " msg = false
            /\ String.prefix "ERROR: " msg = true)).
Proof.
  destruct (convert_one_returns W src dest quality overwrite fix_orientation s)
    as (s' & msg & H).
  exists s', msg. split; [exact H |].
  apply convert_one_line in H.
  destruct H as [(_ & [->| ->])|(e & _ & ->)].
  - right. left. split; [reflexivity |]. split; [apply prefix_app | reflexivity].
  - left. split; [apply prefix_app |]. split; reflexivity.
  - right. right. split; [reflexivity |]. split; [reflexivity | apply prefix_app].
Qed.

(** ** The model on the script's own examples *)

Example suffix_upper : suffix ["in"; "a"; "b.HEIC"] = ".HEIC".
Proof. reflexivity. Qed.

Example suffix_hidden : suffix ["in"; ".heic"] = "".
Proof. reflexivity. Qed.

Example suffix_trailing_dot : suffix ["in"; "b."] = "".
Proof. reflexivity. Qed.

Example map_selftest :
  make_output_path ["tmp"; "in"; "sub"; "x.HEIC"] ["tmp"; "in"] ["tmp"; "out"]
  = Ok ["tmp"; "out"; "sub"; "x.jpg"].
Proof. reflexivity. Qed.

Example selftest_orientation_noop :
  _fix_orientation_exif_bytes Sample.world_with_piexif None = Ok None.
Proof. reflexivity. Qed.

Example orientation_reset :
  _fix_orientation_exif_bytes Sample.world_with_piexif
    (Some (list_byte_of_string "Exif-sideways"))
  = Ok (Some (list_byte_of_string "Exif-upright")).
Proof. vm_compute. reflexivity. Qed.

Example batch_photos :
  (run_batch Sample.world ["in"] ["out"] 95 false true
             (Sample.start Sample.photos_fs)).2
  = Ok (1, 1, 0)%nat.
Proof. vm_compute. reflexivity. Qed.

Example batch_selftest_tree :
  let r := run_batch Sample.world ["in"] ["out"] 95 false true
             (Sample.start Sample.selftest_fs) in
  r.2 = Ok (1, 1, 1)%nat
  /\ stdout r.1 = ["ERROR: x.HEIC (cannot identify image file)"].
Proof. vm_compute. split; reflexivity. Qed.

Example batch_stopped_by_console :
  let r := run_batch Sample.world_ascii_console ["in"] ["out"] 95 false true
             (Sample.start Sample.accent_fs) in
  find_heic_files Sample.accent_fs ["in"]
  = [["in"; "a"; "café.heic"]; ["in"; "a"; "z.heic"]]
  /\ r.2 = Raise (UnicodeEncodeError "'ascii' codec can't encode characters")
  /\ stdout r.1 = []
  /\ fs r.1 !! ["out"; "a"; "café.jpg"]
     = Some (File (list_byte_of_string "heic-c"))
  /\ fs r.1 !! ["out"; "a"; "z.jpg"] = None.
Proof. vm_compute. repeat split. Qed.

Example batch_accents_on_a_wider_console :
  let r := run_batch Sample.world ["in"] ["out"] 95 false true
             (Sample.start Sample.accent_fs) in
  r.2 = Ok (2, 2, 0)%nat
  /\ stdout r.1 = ["OK: café.heic"; "OK: z.heic"].
Proof. vm_compute. split; reflexivity. Qed.

Example failed_overwrite_empties_destination :
  let dest := ["in"; "a"; "c.jpg"] in
  let r := convert_one Sample.world_failing_encoder ["in"; "a"; "b.HEIC"] dest
             95 true true (Sample.start Sample.photos_fs) in
  r.2 = Ok "ERROR: b.HEIC (encoder error -2 when writing image file)"
  /\ Sample.photos_fs !! dest = Some (File (list_byte_of_string "jpeg-c"))
  /\ fs r.1 !! dest = Some (File []).
Proof. vm_compute. repeat split. Qed.

(** * Further properties *)

(** ** Names and destinations *)

Lemma string_app_nil_r (a : string) : a ++ "" = a.
Proof.
  induction a as [|c a IH]; [reflexivity |].
  change (String c (a ++ "") = String c a). now f_equal.
Qed.

Lemma string_app_inv_tail (a b c : string) : a ++ c = b ++ c -> a = b.
Proof.
  revert b. induction a as [|x a IH]; intros [|y b] H.
  - reflexivity.
  - apply (f_equal String.length) in H.
    rewrite !string_length_app in H. simpl in H. lia.
  - apply (f_equal String.length) in H.
    rewrite !string_length_app in H. simpl in H. lia.
  - simpl in H. injection H as -> H. now rewrite (IH _ H).
Qed.

Lemma rfind_dot_lt (n : string) (i : nat) :
  rfind_dot n = Some i -> (i < String.length n)%nat.
Proof.
  revert i. induction n as [|c n IH]; intros i; simpl; [discriminate |].
  destruct (rfind_dot n) as [j|].
  - intros [= <-]. specialize (IH j eq_refl). lia.
  - destruct (Ascii.eqb c "."); [intros [= <-]; lia | discriminate].
Qed.

Lemma substring_length (n : string) (i k : nat) :
  (i + k <= String.length n)%nat -> String.length (String.substring i k n) = k.
Proof.
  revert i k. induction n as [|c n IH]; intros i k; simpl.
  - intros H. assert (i = 0%nat) as -> by lia. assert (k = 0%nat) as -> by lia.
    reflexivity.
  - destruct i as [|i].
    + destruct k as [|k]; simpl; [reflexivity |].
      intros H. rewrite IH; [reflexivity | lia].
    + intros H. apply IH. lia.
Qed.

Lemma substring_split (n : string) (i : nat) :
  (i <= String.length n)%nat ->
  n = String.substring 0 i n ++ String.substring i (String.length n - i) n.
Proof.
  revert i. induction n as [|c n IH]; intros i Hi.
  - simpl in Hi. assert (i = 0%nat) as -> by lia. reflexivity.
  - destruct i as [|i].
    + change (String.substring 0 0 (String c n)) with "".
      rewrite Nat.sub_0_r, substring_whole. reflexivity.
    + simpl in Hi. simpl.
      transitivity (String c (String.substring 0 i n
                              ++ String.substring i (String.length n - i) n));
        [f_equal; apply IH; lia | reflexivity].
Qed.

(** A suffix, when there is one, is what follows a dot that is neither
    the first nor the last character of the name. *)
Lemma name_suffix_cases (n : string) :
  name_suffix n = ""
  \/ exists i, (0 < i < String.length n - 1)%nat
               /\ name_suffix n = String.substring i (String.length n - i) n.
Proof.
  unfold name_suffix. destruct (rfind_dot n) as [i|]; [| now left].
  destruct ((0 <? i) && (i <? String.length n - 1))%nat eqn:E; [| now left].
  right. exists i. apply andb_prop in E as [E1 E2].
  apply Nat.ltb_lt in E1, E2. split; [lia | reflexivity].
Qed.

(** Every name is a non-empty stem followed by its suffix, and
    [with_suffix] keeps the stem. *)
Lemma name_stem (n : string) :
  n <> "" ->
  exists stem,
    stem <> "" /\ n = stem ++ name_suffix n
    /\ forall sfx, name_with_suffix n sfx = stem ++ sfx.
Proof.
  intros Hn. unfold name_with_suffix.
  destruct (name_suffix_cases n) as [E|(i & Hi & E)]; rewrite E.
  - exists n. split; [exact Hn |]. split; [now rewrite string_app_nil_r |].
    intros sfx. now destruct (decide ("" = "")).
  - assert (String.length (String.substring i (String.length n - i) n)
            = (String.length n - i)%nat) as Hlen
      by (apply substring_length; lia).
    exists (String.substring 0 i n). split; [| split].
    + intros E0. apply (f_equal String.length) in E0.
      rewrite substring_length in E0 by lia. simpl in E0. lia.
    + apply substring_split. lia.
    + intros sfx.
      destruct (decide (String.substring i (String.length n - i) n = ""))
        as [E0|_].
      * apply (f_equal String.length) in E0. rewrite Hlen in E0. simpl in E0. lia.
      * rewrite Hlen.
        replace (String.length n - (String.length n - i))%nat with i by lia.
        reflexivity.
Qed.

Lemma make_output_path_nameless (input_root output_root rel : Path) :
  rel <> [] -> name rel = "" ->
  exists msg,
    make_output_path (input_root ++ rel) input_root output_root
    = Raise (ValueError msg).
Proof.
  intros Hrel Hname. unfold make_output_path, relative_to.
  rewrite strip_root_app. simpl rbind. unfold with_suffix, joinpath.
  simpl negb. cbv iota. rewrite (name_app _ _ Hrel).
  destruct (decide (name rel = "")); [eauto | contradiction].
Qed.

(** The shape of every destination of a source below the input root. *)
Lemma make_output_path_shape (src input_root output_root dest : Path) :
  below input_root src = true ->
  make_output_path src input_root output_root = Ok dest ->
  exists rel stem,
    rel <> [] /\ stem <> ""
    /\ src = (input_root ++ rel)%list
    /\ name rel = stem ++ name_suffix (name rel)
    /\ dest = (output_root ++ parent rel ++ [(stem ++ ".jpg")%string])%list.
Proof.
  intros Hb Hd. apply below_inv in Hb as (rel & Hrel & ->).
  destruct (decide (name rel = "")) as [E|Hname].
  { destruct (make_output_path_nameless input_root output_root rel Hrel E)
      as [msg Hm]. congruence. }
  rewrite (make_output_path_below _ _ _ Hrel Hname) in Hd.
  destruct (name_stem (name rel) Hname) as (stem & Hstem & Hsplit & Hwith).
  exists rel, stem. repeat split; try assumption.
  rewrite Hwith in Hd. now injection Hd as <-.
Qed.

Lemma length_parent (rel : Path) :
  rel <> [] -> S (length (parent rel)) = length rel.
Proof.
  intros H. destruct (exists_last H) as (l & a & ->).
  unfold parent. rewrite removelast_last, length_app. simpl. lia.
Qed.

(** X1.  The destination of a source below the input root always ends
    in [.jpg], lies strictly below the output root at the depth the
    source has below the input root, and is never itself a HEIC
    candidate. *)
Theorem destination_is_jpg_below_output (src input_root output_root dest : Path) :
  below input_root src = true ->
  make_output_path src input_root output_root = Ok dest ->
  suffix dest = ".jpg"
  /\ in_HEIC_EXTS (suffix dest) = false
  /\ below output_root dest = true
  /\ (length dest + length input_root = length output_root + length src)%nat.
Proof.
  intros Hb Hd.
  destruct (make_output_path_shape _ _ _ _ Hb Hd)
    as (rel & stem & Hrel & Hstem & -> & _ & ->).
  assert (suffix (output_root ++ parent rel ++ [(stem ++ ".jpg")%string])
          = ".jpg") as Hs.
  { unfold suffix, name. rewrite app_assoc, last_last.
    apply (name_suffix_app stem "jpg"); [exact Hstem | discriminate | reflexivity]. }
  split; [exact Hs |]. split; [now rewrite Hs |]. split.
  - apply below_app. now destruct (parent rel).
  - rewrite !length_app. simpl. pose proof (length_parent rel Hrel). lia.
Qed.

Lemma destination_is_jpg_below_output_witness :
  suffix ["out"; "a"; "b.jpg"] = ".jpg"
  /\ in_HEIC_EXTS (suffix ["out"; "a"; "b.jpg"]) = false
  /\ below ["out"] ["out"; "a"; "b.jpg"] = true
  /\ (3 + 1 = 1 + 3)%nat.
Proof.
  apply (destination_is_jpg_below_output ["in"; "a"; "b.HEIC"] ["in"] ["out"]
           ["out"; "a"; "b.jpg"]); reflexivity.
Defined.

(** X2.  The extension is forgotten: two sources in the same folder
    whose names differ only in their extension have one and the same
    destination. *)
Theorem extension_is_forgotten (input_root output_root dir : Path)
    (stem ext1 ext2 : string) :
  stem <> "" -> ext1 <> "" -> ext2 <> "" ->
  rfind_dot ext1 = None -> rfind_dot ext2 = None ->
  make_output_path (input_root ++ dir ++ [(stem ++ "." ++ ext1)%string])%list
                   input_root output_root
  = Ok (output_root ++ dir ++ [(stem ++ ".jpg")%string])%list
  /\ make_output_path (input_root ++ dir ++ [(stem ++ "." ++ ext2)%string])%list
                      input_root output_root
     = make_output_path (input_root ++ dir ++ [(stem ++ "." ++ ext1)%string])%list
                        input_root output_root.
Proof.
  intros Hstem H1 H2 Hd1 Hd2.
  assert (forall ext, ext <> "" -> rfind_dot ext = None ->
    make_output_path (input_root ++ dir ++ [(stem ++ "." ++ ext)%string])%list
                     input_root output_root
    = Ok (output_root ++ dir ++ [(stem ++ ".jpg")%string])%list) as Hone.
  { intros ext Hext Hdot.
    assert (name (dir ++ [(stem ++ "." ++ ext)%string])%list = stem ++ "." ++ ext) as Hn
      by (unfold name; apply last_last).
    assert (stem ++ "." ++ ext <> "") as Hne.
    { intros E. apply (f_equal String.length) in E.
      rewrite string_length_app in E. simpl in E.
      destruct stem; [congruence | simpl in E; lia]. }
    rewrite make_output_path_below.
    - rewrite Hn. unfold parent. rewrite removelast_last.
      change ("." ++ ext) with (String "." ext).
      now rewrite (name_with_suffix_app stem ext ".jpg").
    - now destruct dir.
    - now rewrite Hn. }
  split; [now apply Hone |]. now rewrite !Hone.
Qed.

Lemma extension_is_forgotten_witness :
  make_output_path ["in"; "a"; "b.heic"] ["in"] ["out"]
  = make_output_path ["in"; "a"; "b.HEIC"] ["in"] ["out"].
Proof.
  apply (extension_is_forgotten ["in"] ["out"] ["a"] "b" "HEIC" "heic");
    (discriminate || reflexivity).
Defined.

(** X3.  Apart from the extension the mapping loses nothing: two
    sources below the input root with the same destination lie in the
    same folder and have the same stem. *)
Theorem same_destination_same_stem (src1 src2 input_root output_root dest : Path) :
  below input_root src1 = true -> below input_root src2 = true ->
  make_output_path src1 input_root output_root = Ok dest ->
  make_output_path src2 input_root output_root = Ok dest ->
  parent src1 = parent src2
  /\ exists stem,
       stem <> ""
       /\ name src1 = stem ++ suffix src1 /\ name src2 = stem ++ suffix src2.
Proof.
  intros Hb1 Hb2 Hd1 Hd2.
  destruct (make_output_path_shape _ _ _ _ Hb1 Hd1)
    as (rel1 & stem1 & Hrel1 & Hstem1 & -> & Hn1 & ->).
  destruct (make_output_path_shape _ _ _ _ Hb2 Hd2)
    as (rel2 & stem2 & Hrel2 & Hstem2 & -> & Hn2 & E).
  apply app_inv_head in E. apply app_inj_tail in E as [Hpar Hjpg].
  apply string_app_inv_tail in Hjpg. subst stem2.
  split.
  - rewrite !parent_app by assumption. now rewrite Hpar.
  - exists stem1. unfold suffix. rewrite !name_app by assumption. auto.
Qed.

Lemma same_destination_same_stem_witness :
  parent ["in"; "a"; "b.heic"] = parent ["in"; "a"; "b.HEIC"]
  /\ exists stem,
       stem <> ""
       /\ name ["in"; "a"; "b.heic"] = stem ++ suffix ["in"; "a"; "b.heic"]
       /\ name ["in"; "a"; "b.HEIC"] = stem ++ suffix ["in"; "a"; "b.HEIC"].
Proof.
  apply (same_destination_same_stem ["in"; "a"; "b.heic"] ["in"; "a"; "b.HEIC"]
           ["in"] ["out"] ["out"; "a"; "b.jpg"]); reflexivity.
Defined.

(** ** The EXIF block *)

(** X4.  Resetting the orientation touches one tag only: the thumbnail,
    every directory other than ["0th"] (GPS included) and every other tag
    of ["0th"] are kept; the orientation tag becomes 1 when it is there
    and is not added when it is not; resetting twice is resetting
    once. *)
Theorem reset_orientation_touches_one_tag (d : exif_dict) :
  thumbnail (reset_orientation d) = thumbnail d
  /\ (forall k, k <> "0th" ->
        ifds (reset_orientation d) !! k = ifds d !! k)
  /\ (forall t, t <> Orientation ->
        default ∅ (ifds (reset_orientation d) !! "0th") !! t
        = default ∅ (ifds d !! "0th") !! t)
  /\ default ∅ (ifds (reset_orientation d) !! "0th") !! Orientation
     = (fun _ => EInt 1) <$> (default ∅ (ifds d !! "0th") !! Orientation)
  /\ reset_orientation (reset_orientation d) = reset_orientation d.
Proof.
  unfold reset_orientation.
  remember (default ∅ (ifds d !! "0th")) as z eqn:Hz.
  destruct (decide (is_Some (z !! Orientation))) as [Hsome|Hnone].
  - cbn [ifds thumbnail]. rewrite !lookup_insert_eq.
    change (default ∅ (Some (<[Orientation:=EInt 1]> z)))
      with (<[Orientation:=EInt 1]> z).
    rewrite lookup_insert_eq.
    destruct (decide (is_Some (Some (EInt 1)))) as [_|Hn];
      [| exfalso; apply Hn; eauto].
    split; [reflexivity |]. split; [| split; [| split]].
    + intros k Hk. now rewrite lookup_insert_ne by congruence.
    + intros t Ht. now rewrite lookup_insert_ne by congruence.
    + destruct Hsome as [v ->]. reflexivity.
    + now rewrite !insert_insert_eq.
  - rewrite <- ?Hz.
    destruct (decide (is_Some (z !! Orientation))); [contradiction |].
    repeat split; try reflexivity.
    rewrite <- ?Hz.
    destruct (z !! Orientation) as [v|] eqn:E;
      [exfalso; apply Hnone; eauto | reflexivity].
Qed.

Lemma reset_orientation_touches_one_tag_witness :
  ifds (reset_orientation Sample.sideways) !! "GPS" = ifds Sample.sideways !! "GPS"
  /\ default ∅ (ifds (reset_orientation Sample.sideways) !! "0th") !! 271
     = default ∅ (ifds Sample.sideways !! "0th") !! 271.
Proof.
  destruct (reset_orientation_touches_one_tag Sample.sideways)
    as (_ & Hother & Htags & _).
  split; [apply Hother; discriminate | apply Htags; discriminate].
Defined.

(** X5.  The fixer never drops an EXIF block: it returns [None] only
    for [None]; and when [piexif] reads and writes the block, the result
    is the block of the dictionary with its orientation reset. *)
Theorem fix_orientation_keeps_block (W : World) (exif_bytes r : option bytes) :
  _fix_orientation_exif_bytes W exif_bytes = Ok r ->
  (r = None <-> exif_bytes = None)
  /\ (forall lib raw d out,
        piexif W = Some lib -> exif_bytes = Some raw -> raw <> [] ->
        piexif_load lib raw = Ok d ->
        piexif_dump lib (reset_orientation d) = Ok out ->
        r = Some out).
Proof.
  unfold _fix_orientation_exif_bytes, fix_orientation_body.
  destruct exif_bytes as [raw|]; [| intros [= <-]; split; [tauto | discriminate]].
  destruct (piexif W) as [lib|].
  2: { intros [= <-]. split; [split; discriminate | discriminate]. }
  destruct (truthy (Some raw)) eqn:Ht.
  - destruct (piexif_load lib raw) as [d|e] eqn:El; simpl.
    + destruct (piexif_dump lib (reset_orientation d)) as [out|e] eqn:Ed; simpl;
        intros [= <-]; (split; [split; discriminate |]);
        intros lib' raw' d' out' [= <-] [= <-] _ Hl Hd;
        rewrite El in Hl; injection Hl as <-; congruence.
    + intros [= <-]. split; [split; discriminate |].
      intros lib' raw' d' out' [= <-] [= <-] _ Hl. congruence.
  - intros [= <-]. split; [split; discriminate |].
    intros lib' raw' d' out' _ [= <-] Hraw. destruct raw; [congruence | discriminate].
Qed.

Lemma fix_orientation_keeps_block_witness :
  Some (list_byte_of_string "Exif-upright") = None
  <-> Some (list_byte_of_string "Exif-sideways") = None.
Proof.
  apply (fix_orientation_keeps_block Sample.world_with_piexif
           (Some (list_byte_of_string "Exif-sideways"))
           (Some (list_byte_of_string "Exif-upright"))).
  vm_compute. reflexivity.
Defined.

(** ** More on discovery *)

Lemma below_deeper (root sub p : Path) :
  below (root ++ sub) p = true -> below root p = true.
Proof.
  intros H. apply below_inv in H as (rel & Hrel & ->).
  rewrite <- app_assoc. apply below_app. now destruct sub.
Qed.

(** X6.  No file is discovered twice, and everything discovered is a
    regular file that is in the map. *)
Theorem find_heic_files_no_duplicates (m : gmap Path node) (root : Path) :
  NoDup (find_heic_files m root)
  /\ forall p, p ∈ find_heic_files m root ->
               exists data, m !! p = Some (File data).
Proof.
  split.
  - unfold find_heic_files, rglob_star.
    apply NoDup_filter, NoDup_filter, NoDup_fst_map_to_list.
  - intros p Hp. apply find_heic_files_elem in Hp as (_ & Hf & _).
    now apply is_file_lookup.
Qed.

Lemma find_heic_files_no_duplicates_witness :
  exists data, Sample.photos_fs !! ["in"; "a"; "b.HEIC"] = Some (File data).
Proof.
  apply (proj2 (find_heic_files_no_duplicates Sample.photos_fs ["in"])).
  apply find_heic_files_elem. split; [vm_compute; reflexivity |].
  split; [vm_compute; reflexivity |].
  apply list_elem_of_In. vm_compute. auto.
Defined.

(** X7.  Discovery in a sub-folder is discovery in the folder, cut down
    to the sub-folder. *)
Theorem find_heic_files_subfolder (m : gmap Path node) (root sub p : Path) :
  p ∈ find_heic_files m (root ++ sub)
  <-> p ∈ find_heic_files m root /\ below (root ++ sub) p = true.
Proof.
  rewrite !find_heic_files_elem. split.
  - intros (Hb & Hf & Hs). repeat split; try assumption.
    now apply (below_deeper root sub).
  - intros ((_ & Hf & Hs) & Hb). auto.
Qed.

(** ** Making directories *)

(** X8.  [ensure_parent] is idempotent: it leaves a destination whose
    parent is a directory already alone, and after it has returned the
    parent is a directory, so that calling it again changes nothing. *)
Theorem ensure_parent_idempotent (dest : Path) (s : State) :
  (is_dir (fs s) (parent dest) = true -> ensure_parent dest s = (s, Ok tt))
  /\ (forall s', ensure_parent dest s = (s', Ok tt) ->
        is_dir (fs s') (parent dest) = true
        /\ ensure_parent dest s' = (s', Ok tt)).
Proof.
  split; [apply mkdir_parents_noop |].
  intros s' H. unfold ensure_parent, mkdir_parents in H.
  apply mkdir_parents_rev_ok in H. rewrite rev_involutive in H.
  split; [exact H | now apply mkdir_parents_noop].
Qed.

Lemma ensure_parent_idempotent_witness :
  ensure_parent ["in"; "a"; "b.jpg"] (Sample.start Sample.photos_fs)
  = (Sample.start Sample.photos_fs, Ok tt)
  /\ is_dir (fs (ensure_parent ["out"; "a"; "b.jpg"]
                   (Sample.start Sample.photos_fs)).1) ["out"; "a"] = true.
Proof.
  split.
  - apply (proj1 (ensure_parent_idempotent ["in"; "a"; "b.jpg"]
                    (Sample.start Sample.photos_fs))).
    vm_compute. reflexivity.
  - apply (proj2 (ensure_parent_idempotent ["out"; "a"; "b.jpg"]
                    (Sample.start Sample.photos_fs))).
    vm_compute. reflexivity.
Defined.

(** X9.  What [ensure_parent] has done when it returns: the
    destination's parent is a directory, and so is every directory above
    it; nothing was printed; every entry that was there is as it was, and
    whatever is new is a directory at a leading part of the parent's
    path.  It returns only when no leading part of that path is a regular
    file. *)
Theorem ensure_parent_makes_ancestors (dest : Path) (s s' : State) :
  ensure_parent dest s = (s', Ok tt) ->
  is_dir (fs s') (parent dest) = true
  /\ (forall k, k `prefix_of` parent dest -> k <> [] -> fs s' !! k = Some Dir)
  /\ stdout s' = stdout s
  /\ (forall k,
        fs s' !! k = fs s !! k
        \/ (k `prefix_of` parent dest /\ k <> []
            /\ fs s !! k = None /\ fs s' !! k = Some Dir))
  /\ (forall a, a `prefix_of` parent dest -> is_file (fs s) a = false).
Proof.
  intros H.
  assert (is_dir (fs s') (parent dest) = true) as Hdir.
  { unfold ensure_parent, mkdir_parents in H.
    apply mkdir_parents_rev_ok in H. now rewrite rev_involutive in H. }
  split; [exact Hdir |].
  split; [intros k Hpre Hk; now apply (is_dir_prefix _ (parent dest)) |].
  destruct (ensure_parent_makes dest s s' (Ok tt) H) as [Hout Hmk].
  split; [exact Hout |]. split; [exact Hmk |].
  intros a [rest Hrest]. destruct (is_file (fs s) a) eqn:Ha; [| reflexivity].
  destruct (mkdir_parents_blocked a rest s Ha) as (e & Hb & _).
  unfold ensure_parent in H. rewrite Hrest in H. congruence.
Qed.

Lemma ensure_parent_makes_ancestors_witness :
  let s' := (ensure_parent ["out"; "x"; "y"; "b.jpg"]
               (Sample.start Sample.photos_fs)).1 in
  is_dir (fs s') ["out"; "x"; "y"] = true
  /\ fs s' !! ["out"; "x"] = Some Dir
  /\ stdout s' = [].
Proof.
  intros s'.
  destruct (ensure_parent_makes_ancestors ["out"; "x"; "y"; "b.jpg"]
              (Sample.start Sample.photos_fs) s')
    as (Hdir & Habove & Hout & _).
  - vm_compute. reflexivity.
  - split; [exact Hdir |]. split; [| exact Hout].
    apply Habove; [exists ["y"]; reflexivity | discriminate].
Defined.

(** X10.  When the destination's parent is, or runs through, a regular
    file, [ensure_parent] raises [FileExistsError] or
    [NotADirectoryError] and changes nothing. *)
Theorem ensure_parent_blocked_by_file (dest a rest : Path) (s : State) :
  parent dest = (a ++ rest)%list ->
  is_file (fs s) a = true ->
  exists msg,
    ensure_parent dest s = (s, Raise (FileExistsError msg))
    \/ ensure_parent dest s = (s, Raise (NotADirectoryError msg)).
Proof.
  intros Hp Ha. unfold ensure_parent. rewrite Hp.
  destruct (mkdir_parents_blocked a rest s Ha) as (e & -> & [-> | ->]).
  - eexists. left. reflexivity.
  - eexists. right. reflexivity.
Qed.

Lemma ensure_parent_blocked_by_file_witness :
  exists msg,
    ensure_parent ["in"; "a"; "c.jpg"; "sub"; "x.jpg"]
                  (Sample.start Sample.photos_fs)
    = (Sample.start Sample.photos_fs, Raise (FileExistsError msg))
    \/ ensure_parent ["in"; "a"; "c.jpg"; "sub"; "x.jpg"]
                     (Sample.start Sample.photos_fs)
       = (Sample.start Sample.photos_fs, Raise (NotADirectoryError msg)).
Proof.
  apply (ensure_parent_blocked_by_file ["in"; "a"; "c.jpg"; "sub"; "x.jpg"]
           ["in"; "a"; "c.jpg"] ["sub"] (Sample.start Sample.photos_fs)).
  - reflexivity.
  - vm_compute. reflexivity.
Defined.

(** ** More on the converter *)

Section ConverterMore.

Variable W : World.

Lemma Image_save_exists (img : Image W) (dest : Path) (exif_bytes : option bytes)
    (quality : Z) (s s' : State) :
  Image_save W img dest exif_bytes quality s = (s', Ok tt) ->
  exists_ (fs s') dest = true.
Proof.
  unfold Image_save.
  assert (forall data : bytes,
    match dest with
    | [] => (s, Raise (EISDIR dest))
    | _ :: _ =>
        match stat (fs s) dest (parent dest) with
        | Ok (File _) => (s, Raise (ENOTDIR dest))
        | Ok Dir =>
            match fs s !! dest with
            | Some Dir => (s, Raise (EISDIR dest))
            | _ => (set_fs s (<[dest := File data]> (fs s)), Ok tt)
            end
        | Raise e => (s, Raise e)
        end
    end = (s', Ok tt) -> exists_ (fs s') dest = true) as Hopen.
  { intros data. destruct dest as [|c0 d0] eqn:Ed; [discriminate |].
    rewrite <- Ed. assert (dest <> []) as Hne by (subst dest; discriminate).
    destruct (exists_last Hne) as (q & c & Hq). rewrite Hq.
    unfold parent. rewrite removelast_last.
    destruct (stat (fs s) (q ++ [c]) q) as [[d|]|e] eqn:E; try discriminate.
    assert (exists_ (<[(q ++ [c])%list := File data]> (fs s)) (q ++ [c]) = true)
      as Hex.
    { unfold exists_. rewrite stat_snoc. unfold stat.
      rewrite resolve_from_insert by (rewrite length_app; simpl; lia).
      fold (stat (fs s) (q ++ [c]) q). now rewrite E, lookup_insert_eq. }
    destruct (fs s !! (q ++ [c])%list) as [[d|]|]; try discriminate;
      now intros [= <-]. }
  destruct (jpeg_encode W img exif_bytes quality) as [data|e partial|e].
  - apply Hopen.
  - destruct dest as [|c0 d0]; [discriminate |].
    destruct (stat (fs s) (c0 :: d0) (parent (c0 :: d0))) as [[d|]|e0];
      try discriminate.
    destruct (fs s !! (c0 :: d0)) as [[d|]|]; try discriminate;
      destruct (negb (exists_ (fs s) (c0 :: d0)) && save_removes_created W);
      discriminate.
  - discriminate.
Qed.

(** The SKIP path of [convert_one]. *)
Lemma convert_one_skip (src dest : Path) (quality : Z) (fix_orientation : bool)
    (s : State) :
  exists_ (fs s) dest = true ->
  convert_one W src dest quality false fix_orientation s
  = (s, Ok ("SKIP (exists): " ++ name src)).
Proof.
  intros Hex. unfold convert_one, try_except, convert_one_body, bind, path_exists.
  rewrite Hex. reflexivity.
Qed.

(** X11.  [convert_one] answers SKIP exactly when the destination exists
    and [overwrite] is off. *)
Theorem convert_one_skip_iff (src dest : Path) (quality : Z)
    (overwrite fix_orientation : bool) (s s' : State) (msg : string) :
  convert_one W src dest quality overwrite fix_orientation s = (s', Ok msg) ->
  String.prefix "SKIP (exists): " msg = true
  <-> exists_ (fs s) dest = true /\ overwrite = false.
Proof.
  intros H. apply convert_one_line in H.
  destruct H as [(Hb & Hmsg)|(e & Hb & ->)];
    apply convert_one_body_cases in Hb.
  - destruct Hb as [(Hex & How & _ & [= ->])|(Hno & s1 & r1 & _ & Hc)].
    + split; [auto | intros _; apply prefix_app].
    + destruct Hc as [(e & _ & _ & [=])|[(e & _ & _ & [=])|(img & ex & rs & _ & _ & Hr)]].
      destruct rs as [[]|e]; [injection Hr as -> | discriminate].
      split; [discriminate |]. intros [Hex ->]. rewrite Hex in Hno. discriminate.
  - destruct Hb as [(_ & _ & _ & [=])|(Hno & _)].
    split; [discriminate |]. intros [Hex ->]. rewrite Hex in Hno. discriminate.
Qed.

(** X12.  A finished conversion is not redone: after [convert_one] has
    answered OK, converting anything to the same destination with
    [overwrite] off is skipped and changes nothing. *)
Theorem convert_one_then_skip (src dest : Path) (quality : Z)
    (overwrite fix_orientation : bool) (s s' : State) (msg : string) :
  convert_one W src dest quality overwrite fix_orientation s = (s', Ok msg) ->
  String.prefix "OK: " msg = true ->
  forall src2 quality2 fix_orientation2,
    convert_one W src2 dest quality2 false fix_orientation2 s'
    = (s', Ok ("SKIP (exists): " ++ name src2)).
Proof.
  intros H Hok src2 quality2 fix_orientation2. apply convert_one_skip.
  apply convert_one_line in H.
  destruct H as [(Hb & [->| ->])|(e & _ & ->)]; try discriminate.
  apply convert_one_body_cases in Hb.
  destruct Hb as [(_ & _ & _ & [=])|(_ & s1 & r1 & _ & Hc)].
  destruct Hc as [(e & _ & _ & [=])|[(e & _ & _ & [=])|(img & ex & rs & _ & Hsave & Hr)]].
  destruct rs as [[]|e]; [| discriminate].
  now apply Image_save_exists in Hsave.
Qed.

(** X13.  Without a regular file at the source there is nothing to
    convert: unless the call is skipped, it ends in an ERROR line and the
    destination is as before. *)
Theorem convert_one_needs_file (src dest : Path) (quality : Z)
    (overwrite fix_orientation : bool) (s s' : State) (msg : string) :
  (forall data, fs s !! src <> Some (File data)) ->
  exists_ (fs s) dest && negb overwrite = false ->
  convert_one W src dest quality overwrite fix_orientation s = (s', Ok msg) ->
  String.prefix "ERROR: " msg = true /\ fs s' !! dest = fs s !! dest.
Proof.
  intros Hsrc Hskip.
  unfold convert_one, try_except, convert_one_body, bind at 1, path_exists.
  rewrite Hskip. unfold bind at 1.
  destruct (ensure_parent dest s) as [s1 [[]|e1]] eqn:Epar;
    apply ensure_parent_effect in Epar as (_ & Hdest & Hdirs).
  2: { unfold ret. intros [= <- <-]. split; [apply prefix_app | exact Hdest]. }
  unfold bind at 1, Image_open.
  destruct (stat (fs s1) src src) as [[data|]|e2] eqn:Est.
  - exfalso. assert (fs s1 !! src = Some (File data)) as Hl.
    { destruct src as [|c src]; [discriminate |].
      apply (resolve_from_lookup (fs s1) (c :: src) [] Dir (File data) (c :: src));
        [discriminate | exact Est]. }
    destruct (Hdirs src) as [E|[_ E]]; [| congruence].
    apply (Hsrc data). congruence.
  - unfold ret. intros [= <- <-]. split; [apply prefix_app | exact Hdest].
  - unfold ret. intros [= <- <-]. split; [apply prefix_app | exact Hdest].
Qed.

Lemma bind_ret {A B} (a : A) (k : A -> M B) (s : State) :
  bind (ret a) k s = k a s.
Proof. reflexivity. Qed.

Lemma bind_lift {A B} (r : result A) (k : A -> M B) (s : State) :
  bind (lift r) k s = match r with Ok a => k a s | Raise e => (s, Raise e) end.
Proof. now destruct r. Qed.

Lemma bind_assoc {A B C} (m : M A) (k1 : A -> M B) (k2 : B -> M C) (s : State) :
  bind (bind m k1) k2 s = bind m (fun a => bind (k1 a) k2) s.
Proof. unfold bind. now destruct (m s) as [s1 [a|e]]. Qed.

(** The end of the [try] block: convert to RGB, save, answer OK. *)
Lemma convert_tail (src dest : Path) (quality : Z) (img1 : Image W)
    (exif_bytes : option bytes) (s1 s' : State) (msg : string) :
  try_except
    (img2 <- lift (convert_RGB W img1) ;;
     Image_save W img2 dest exif_bytes quality ;;
     ret ("OK: " ++ name src))
    (fun e => ret ("ERROR: " ++ name src ++ " (" ++ exn_str e ++ ")")) s1
  = (s', Ok msg) ->
  String.prefix "OK: " msg = true ->
  exists rgb data,
    convert_RGB W img1 = Ok rgb
    /\ jpeg_encode W rgb exif_bytes quality = Encoded data
    /\ fs s' !! dest = Some (File data).
Proof.
  unfold try_except. rewrite bind_lift.
  destruct (convert_RGB W img1) as [rgb|e4].
  2: { unfold ret. intros [= <- <-]. discriminate. }
  unfold bind, ret.
  destruct (Image_save W rgb dest exif_bytes quality s1) as [s2 [[]|e5]] eqn:Esave.
  2: { intros [= <- <-]. discriminate. }
  intros [= <- <-] _.
  apply Image_save_effect in Esave as (_ & _ & data & Henc & Hd). eauto.
Qed.

(** X14.  What an OK means: the source was a regular file that decoded;
    the image was transposed, when the orientation fix is on, and
    converted to RGB; the destination now holds what the JPEG writer made
    of that image at the given quality, with the source's EXIF block,
    passed through the fixer when the orientation fix is on and as it is
    otherwise. *)
Theorem convert_one_ok_pipeline (src dest : Path) (quality : Z)
    (overwrite fix_orientation : bool) (s s' : State) (msg : string) :
  convert_one W src dest quality overwrite fix_orientation s = (s', Ok msg) ->
  String.prefix "OK: " msg = true ->
  exists raw img img1 rgb exif_bytes data,
    fs s !! src = Some (File raw)
    /\ image_decode W raw = Ok img
    /\ (if fix_orientation
        then exif_transpose W img = Ok img1
             /\ _fix_orientation_exif_bytes W (image_info_exif W img)
                = Ok exif_bytes
        else img1 = img /\ exif_bytes = image_info_exif W img)
    /\ convert_RGB W img1 = Ok rgb
    /\ jpeg_encode W rgb exif_bytes quality = Encoded data
    /\ fs s' !! dest = Some (File data).
Proof.
  unfold convert_one, try_except, convert_one_body, bind at 1, path_exists.
  destruct (exists_ (fs s) dest && negb overwrite).
  { unfold ret. intros [= <- <-]. discriminate. }
  unfold bind at 1.
  destruct (ensure_parent dest s) as [s1 [[]|e1]] eqn:Epar;
    [| unfold ret; intros [= <- <-]; discriminate].
  apply ensure_parent_effect in Epar as (_ & _ & Hdirs).
  unfold bind at 1, Image_open.
  destruct (stat (fs s1) src src) as [[raw|]|e2] eqn:Est;
    try (unfold ret; intros [= <- <-]; discriminate).
  assert (fs s !! src = Some (File raw)) as Hsrc.
  { assert (fs s1 !! src = Some (File raw)) as Hl.
    { destruct src as [|c src]; [discriminate |].
      apply (resolve_from_lookup (fs s1) (c :: src) [] Dir (File raw) (c :: src));
        [discriminate | exact Est]. }
    destruct (Hdirs src) as [E|[_ E]]; congruence. }
  destruct (image_decode W raw) as [img|e3] eqn:Edec;
    [| unfold ret; intros [= <- <-]; discriminate].
  destruct fix_orientation.
  - rewrite bind_assoc, bind_lift.
    destruct (exif_transpose W img) as [img1|e4] eqn:Etr;
      [| unfold ret; intros [= <- <-]; discriminate].
    rewrite bind_assoc, bind_lift.
    destruct (_fix_orientation_exif_bytes W (image_info_exif W img))
      as [ex|e5] eqn:Efix;
      [| unfold ret; intros [= <- <-]; discriminate].
    rewrite bind_ret. cbn [fst snd]. intros H1 H2.
    destruct (convert_tail src dest quality img1 ex s1 s' msg H1 H2)
      as (rgb & data & Hrgb & Henc & Hd).
    exists raw, img, img1, rgb, ex, data. auto 10.
  - rewrite bind_ret. cbn [fst snd]. intros H1 H2.
    destruct (convert_tail src dest quality img (image_info_exif W img)
                s1 s' msg H1 H2) as (rgb & data & Hrgb & Henc & Hd).
    exists raw, img, img, rgb, (image_info_exif W img), data. auto 10.
Qed.

End ConverterMore.

Lemma convert_one_skip_iff_witness :
  exists_ Sample.photos_fs ["in"; "a"; "c.jpg"] = true /\ false = false.
Proof.
  apply (proj1 (convert_one_skip_iff Sample.world ["in"; "a"; "b.HEIC"]
                  ["in"; "a"; "c.jpg"] 95 false true
                  (Sample.start Sample.photos_fs)
                  (Sample.start Sample.photos_fs) "SKIP (exists): b.HEIC"
                  eq_refl)).
  reflexivity.
Defined.

Lemma convert_one_then_skip_witness :
  let s' := (convert_one Sample.world ["in"; "a"; "b.HEIC"]
               ["out"; "a"; "b.jpg"] 95 false true
               (Sample.start Sample.photos_fs)).1 in
  convert_one Sample.world ["in"; "a"; "d.Heic"] ["out"; "a"; "b.jpg"] 80
              false false s'
  = (s', Ok "SKIP (exists): d.Heic").
Proof.
  intros s'.
  apply (convert_one_then_skip Sample.world ["in"; "a"; "b.HEIC"]
           ["out"; "a"; "b.jpg"] 95 false true
           (Sample.start Sample.photos_fs) s' "OK: b.HEIC").
  - vm_compute. reflexivity.
  - reflexivity.
Defined.

Lemma convert_one_needs_file_witness :
  let r := convert_one Sample.world ["in"; "a"; "gone.heic"]
             ["out"; "a"; "gone.jpg"] 95 false true
             (Sample.start Sample.photos_fs) in
  String.prefix "ERROR: " "ERROR: gone.heic ([Errno 2] No such file or directory: '/in/a/gone.heic')"
  = true
  /\ fs r.1 !! ["out"; "a"; "gone.jpg"]
     = Sample.photos_fs !! ["out"; "a"; "gone.jpg"].
Proof.
  intros r.
  apply (convert_one_needs_file Sample.world ["in"; "a"; "gone.heic"]
           ["out"; "a"; "gone.jpg"] 95 false true
           (Sample.start Sample.photos_fs) r.1).
  - intros data. vm_compute. discriminate.
  - vm_compute. reflexivity.
  - vm_compute. reflexivity.
Defined.

Lemma convert_one_ok_pipeline_witness :
  let s' := (convert_one Sample.world ["in"; "a"; "b.HEIC"]
               ["out"; "a"; "b.jpg"] 95 false false
               (Sample.start Sample.photos_fs)).1 in
  exists (raw img img1 rgb : bytes) (exif_bytes : option bytes) (data : bytes),
    Sample.photos_fs !! ["in"; "a"; "b.HEIC"] = Some (File raw)
    /\ Sample.decode raw = Ok img
    /\ (img1 = img /\ exif_bytes = None)
    /\ Ok img1 = Ok rgb
    /\ Encoded rgb = Encoded data
    /\ fs s' !! ["out"; "a"; "b.jpg"] = Some (File data).
Proof.
  intros s'.
  apply (convert_one_ok_pipeline Sample.world ["in"; "a"; "b.HEIC"]
           ["out"; "a"; "b.jpg"] 95 false false
           (Sample.start Sample.photos_fs) s' "OK: b.HEIC").
  - vm_compute. reflexivity.
  - reflexivity.
Defined.

(** ** More on the batch *)

Lemma destination_jpg (src input_root output_root dest : Path) :
  below input_root src = true ->
  make_output_path src input_root output_root = Ok dest ->
  below output_root dest = true /\ suffix dest = ".jpg".
Proof.
  intros Hb Hd.
  destruct (make_output_path_shape _ _ _ _ Hb Hd)
    as (rel & stem & Hrel & Hstem & -> & _ & ->).
  split.
  - apply below_app. now destruct (parent rel).
  - unfold suffix, name. rewrite app_assoc, last_last.
    apply (name_suffix_app stem "jpg"); [exact Hstem | discriminate | reflexivity].
Qed.

Section BatchMore.

Variable W : World.
Variables (input_dir output_dir : Path) (quality : Z).
Variables (overwrite fix_orientation : bool).

Local Abbreviation loop files done errors :=
  (batch_loop W files input_dir output_dir quality overwrite fix_orientation
              done errors).

(** However the loop ends, an entry is as before, or is a directory made
    at a free path, or is a [.jpg] path below the output folder. *)
Lemma batch_loop_touches (files : list Path) :
  (forall src, src ∈ files -> below input_dir src = true) ->
  forall done errors s s' r,
    loop files done errors s = (s', r) ->
    forall p,
      fs s' !! p = fs s !! p
      \/ (fs s !! p = None /\ fs s' !! p = Some Dir)
      \/ (below output_dir p = true /\ suffix p = ".jpg").
Proof.
  induction files as [|src files IH]; intros Hbelow done errors s s' r.
  - simpl. unfold ret. intros [= <- _] p. now left.
  - destruct (make_output_path src input_dir output_dir) as [dest|err] eqn:Hd.
    + destruct (batch_loop_step W input_dir output_dir quality overwrite
                  fix_orientation src dest files done errors s Hd)
        as (s1 & msg & Hc & _ & ->).
      intros Hloop p.
      assert (forall src', src' ∈ files -> below input_dir src' = true) as Hrest
        by (intros src' Hin; apply Hbelow, elem_of_cons; now right).
      assert (fs s' !! p = fs s1 !! p
              \/ (fs s1 !! p = None /\ fs s' !! p = Some Dir)
              \/ (below output_dir p = true /\ suffix p = ".jpg")) as Hp.
      { destruct (print_error W msg) as [e0|].
        - injection Hloop as <- _. now left.
        - exact (IH Hrest _ _ _ _ _ Hloop p). }
      clear Hloop. rename Hp into Hloop.
      destruct (decide (p = dest)) as [->|Hne].
      { right. right. apply (destination_jpg src input_dir); [| exact Hd].
        apply Hbelow, elem_of_cons. now left. }
      destruct (proj2 (convert_one_frame W _ _ _ _ _ _ _ _ Hc) p Hne)
        as [E1|[E1 E1']];
        destruct Hloop as [E2|[[E2 E2']|Hj]];
        first [ left; congruence
              | right; left; split; congruence
              | right; right; exact Hj
              | congruence ].
    + cbn [batch_loop]. unfold bind at 1, lift. rewrite Hd.
      intros [= <- _] p. now left.
Qed.

(** The lines printed by the loop report on the files, one by one and
    in order. *)
Lemma batch_loop_reports (files : list Path) :
  forall done errors s s' d e,
    loop files done errors s = (s', Ok (d, e)) ->
    exists msgs,
      stdout s' = (stdout s ++ msgs)%list /\ Forall2 reports files msgs.
Proof.
  induction files as [|src files IH]; intros done errors s s' d e.
  - simpl. unfold ret. intros [= <- _ _]. exists []. rewrite app_nil_r.
    split; [reflexivity | constructor].
  - destruct (make_output_path src input_dir output_dir) as [dest|err] eqn:Hd.
    + destruct (batch_loop_step W input_dir output_dir quality overwrite
                  fix_orientation src dest files done errors s Hd)
        as (s1 & msg & Hc & Hout & ->).
      destruct (print_error W msg) as [e0|]; [discriminate |].
      intros H. apply IH in H as (msgs & Hmsgs & Hall).
      exists (msg :: msgs). simpl in Hmsgs.
      rewrite Hout, <- app_assoc in Hmsgs. split; [exact Hmsgs |].
      constructor; [| exact Hall].
      apply convert_one_line in Hc. unfold reports.
      destruct Hc as [(_ & [->| ->])|(e0 & _ & ->)]; eauto.
    + cbn [batch_loop]. unfold bind at 1, lift. rewrite Hd. discriminate.
Qed.

End BatchMore.

(** X15.  However [run_batch] ends, every entry of the filesystem is as
    before, or is a directory made at a free path, or is a [.jpg] path
    below the output folder; in particular every discovered source file
    is still there, unchanged. *)
Theorem run_batch_writes_only_jpg (W : World) (input_dir output_dir : Path)
    (quality : Z) (overwrite fix_orientation : bool) (s s' : State)
    (r : result (nat * nat * nat)) :
  run_batch W input_dir output_dir quality overwrite fix_orientation s = (s', r) ->
  (forall p,
     fs s' !! p = fs s !! p
     \/ (fs s !! p = None /\ fs s' !! p = Some Dir)
     \/ (below output_dir p = true /\ suffix p = ".jpg"))
  /\ (forall p, p ∈ find_heic_files (fs s) input_dir -> fs s' !! p = fs s !! p).
Proof.
  intros Hrun.
  assert (forall p,
     fs s' !! p = fs s !! p
     \/ (fs s !! p = None /\ fs s' !! p = Some Dir)
     \/ (below output_dir p = true /\ suffix p = ".jpg")) as Hall.
  { destruct (heif_available W) eqn:Havail.
    2: { destruct (run_batch_not_ready W input_dir output_dir quality overwrite
                     fix_orientation s (or_introl Havail)) as [msg E].
         rewrite E in Hrun. injection Hrun as <- _. intros p. now left. }
    destruct (register_heif_opener W) as [[]|e] eqn:Hreg.
    2: { destruct (run_batch_not_ready W input_dir output_dir quality overwrite
                     fix_orientation s (or_intror (ex_intro _ e Hreg)))
           as [msg E].
         rewrite E in Hrun. injection Hrun as <- _. intros p. now left. }
    rewrite (run_batch_ready W _ _ _ _ _ s Havail Hreg) in Hrun.
    destruct (batch_loop W (find_heic_files (fs s) input_dir) input_dir
                output_dir quality overwrite fix_orientation 0 0 s)
      as [s1 r1] eqn:Hloop.
    assert (s1 = s') as -> by (destruct r1; now injection Hrun as <- _).
    apply (batch_loop_touches W input_dir output_dir quality overwrite
             fix_orientation _ (fun src Hin =>
               proj1 (proj1 (find_heic_files_elem _ _ _) Hin)) _ _ _ _ _ Hloop). }
  split; [exact Hall |].
  intros p Hp. apply find_heic_files_elem in Hp as (_ & Hf & Hs).
  destruct (is_file_lookup _ _ Hf) as [data Hl].
  destruct (Hall p) as [E|[[E _]|[_ E]]]; [exact E | congruence |].
  rewrite E in Hs. apply list_elem_of_In in Hs. vm_compute in Hs.
  destruct Hs as [?|[?|[?|[?|[]]]]]; discriminate.
Qed.

Lemma run_batch_writes_only_jpg_witness :
  fs (run_batch Sample.world ["in"] ["out"] 95 false true
        (Sample.start Sample.photos_fs)).1 !! ["in"; "a"; "b.HEIC"]
  = Sample.photos_fs !! ["in"; "a"; "b.HEIC"].
Proof.
  refine (proj2 (run_batch_writes_only_jpg Sample.world ["in"] ["out"] 95 false
                   true (Sample.start Sample.photos_fs) _ _ _)
                ["in"; "a"; "b.HEIC"] _).
  - apply surjective_pairing.
  - apply find_heic_files_elem. split; [vm_compute; reflexivity |].
    split; [vm_compute; reflexivity |].
    apply list_elem_of_In. vm_compute. auto.
Defined.

(** X16.  A run of [run_batch] that returns has printed one line per
    discovered file, in discovery order, each an OK, SKIP or ERROR line
    naming that file. *)
Theorem run_batch_lines_in_order (W : World) (input_dir output_dir : Path)
    (quality : Z) (overwrite fix_orientation : bool) (s s' : State)
    (total done errors : nat) :
  run_batch W input_dir output_dir quality overwrite fix_orientation s
  = (s', Ok (total, done, errors)) ->
  exists msgs,
    stdout s' = (stdout s ++ msgs)%list
    /\ Forall2 reports (find_heic_files (fs s) input_dir) msgs.
Proof.
  intros H. apply run_batch_returned in H as [_ Hloop].
  now apply batch_loop_reports in Hloop.
Qed.

Lemma run_batch_lines_in_order_witness :
  exists msgs,
    stdout (run_batch Sample.world ["in"] ["out"] 95 false true
              (Sample.start Sample.photos_fs)).1
    = (stdout (Sample.start Sample.photos_fs) ++ msgs)%list
    /\ Forall2 reports (find_heic_files Sample.photos_fs ["in"]) msgs.
Proof.
  refine (run_batch_lines_in_order Sample.world ["in"] ["out"] 95 false true
            (Sample.start Sample.photos_fs) _ 1 1 0 _).
  vm_compute. reflexivity.
Defined.

(** ** The strict [mkdir] of the self-test *)

Lemma mkdir_parents_strict_unfold (p : Path) :
  p <> [] ->
  mkdir_parents_strict p
  = try_except (os_mkdir p) (fun e =>
      match e with
      | FileNotFoundError _ => mkdir_parents (parent p) ;; os_mkdir p
      | _ => raise e
      end).
Proof. destruct p; [congruence | reflexivity]. Qed.

(** [mkdir(parents=True)] succeeds on a new path that hangs, through
    free names only, below a directory. *)
Lemma mkdir_parents_strict_creates (base rest : Path) (s : State) :
  rest <> [] ->
  is_dir (fs s) base = true ->
  (forall r, r <> [] -> r `prefix_of` rest -> fs s !! (base ++ r)%list = None) ->
  exists s',
    mkdir_parents_strict (base ++ rest) s = (s', Ok tt)
    /\ is_dir (fs s') (base ++ rest) = true
    /\ stdout s' = stdout s
    /\ grown (fun k => k `prefix_of` (base ++ rest)%list /\ k <> [])
             (fs s) (fs s').
Proof.
  intros Hrest Hbase Hfree.
  destruct (exists_last Hrest) as (rest' & c & ->).
  assert (fs s !! ((base ++ rest') ++ [c])%list = None) as Hp
    by (rewrite <- app_assoc; apply Hfree; [apply snoc_not_nil | reflexivity]).
  rewrite app_assoc.
  rewrite mkdir_parents_strict_unfold by apply snoc_not_nil.
  unfold try_except, parent. rewrite removelast_last.
  assert (forall s0 s1 r, os_mkdir ((base ++ rest') ++ [c]) s0 = (s1, r) ->
            stdout s1 = stdout s0
            /\ grown (fun k => k `prefix_of` ((base ++ rest') ++ [c])%list
                               /\ k <> []) (fs s0) (fs s1)) as Hmkg.
  { intros s0 s1 r H. apply os_mkdir_grown in H as [Ho Hg].
    split; [exact Ho |]. revert Hg. apply grown_weaken. intros k [-> Hk].
    split; [reflexivity | exact Hk]. }
  destruct rest' as [|c1 rest1].
  - rewrite !app_nil_r in Hp, Hmkg |- *.
    pose proof (os_mkdir_fresh base c s Hbase Hp) as Hmk. rewrite Hmk.
    eexists. split; [reflexivity |]. split; [now apply (os_mkdir_ok _ s) |].
    exact (Hmkg s _ (Ok tt) Hmk).
  - assert (os_mkdir ((base ++ c1 :: rest1) ++ [c]) s
            = (s, Raise (ENOENT ((base ++ c1 :: rest1) ++ [c])))) as Hmk.
    { rewrite os_mkdir_unfold by apply snoc_not_nil.
      unfold parent. rewrite removelast_last.
      rewrite (stat_missing (fs s) _ base c1 rest1 Hbase); [reflexivity |].
      apply Hfree; [discriminate |]. exists (rest1 ++ [c])%list. reflexivity. }
    rewrite Hmk. unfold ENOENT at 1. unfold bind.
    destruct (mkdir_parents_creates base (c1 :: rest1) s Hbase) as (s1 & Hpar & Hdir).
    { intros r Hr [k Hk]. apply Hfree; [exact Hr |].
      exists (k ++ [c])%list. rewrite Hk. now rewrite <- app_assoc. }
    rewrite Hpar.
    apply mkdir_parents_grown in Hpar as [Hout1 Hg1].
    assert (fs s1 !! ((base ++ c1 :: rest1) ++ [c])%list = None) as Hp1.
    { destruct (Hg1 ((base ++ c1 :: rest1) ++ [c])%list) as [E|[[Hpre _] _]].
      - now rewrite E.
      - now apply prefix_snoc_not in Hpre. }
    pose proof (os_mkdir_fresh _ c s1 Hdir Hp1) as Hmk1. rewrite Hmk1.
    eexists. split; [reflexivity |].
    split; [now apply (os_mkdir_ok _ s1) |].
    destruct (Hmkg s1 _ (Ok tt) Hmk1) as [Ho2 Hg2].
    split; [simpl in *; congruence |].
    eapply grown_trans; [| exact Hg2].
    revert Hg1. apply grown_weaken. intros k [Hk Hk'].
    split; [now apply prefix_app_r | exact Hk'].
Qed.

Lemma write_bytes_fresh (q : Path) (c : string) (data : bytes) (s : State) :
  is_dir (fs s) q = true -> fs s !! (q ++ [c])%list = None ->
  write_bytes (q ++ [c]) data s
  = (set_fs s (<[(q ++ [c])%list := File data]> (fs s)), Ok tt).
Proof.
  intros Hq Hc. unfold write_bytes.
  destruct (q ++ [c])%list as [|c0 p0] eqn:Ep; [now destruct q |].
  rewrite <- Ep in *. unfold parent. rewrite removelast_last.
  unfold is_dir in Hq.
  destruct (stat (fs s) q q) as [[d|]|e] eqn:E; try discriminate.
  now rewrite (stat_whole _ _ (q ++ [c]) _ _ E), Hc.
Qed.

(** ** The self-test *)

Section SelfTest.

Variable W : World.

(** In a fresh, empty directory the [with] block of the self-test runs
    through, its assertion holds, and nothing outside the directory is
    touched. *)
Lemma selftest_body_passes (td : Path) (s1 : State) :
  is_dir (fs s1) td = true ->
  (forall r, r <> [] -> fs s1 !! (td ++ r)%list = None) ->
  exists s4,
    selftest_body td s1 = (s4, Ok true)
    /\ stdout s4 = stdout s1
    /\ grown (fun k => td `prefix_of` k) (fs s1) (fs s4).
Proof.
  intros Htd Hfree. unfold selftest_body, joinpath.
  change (Path_of_string "in/sub") with ["in"; "sub"].
  change (Path_of_string "out") with ["out"].
  change (Path_of_string "in") with ["in"].
  change (Path_of_string "x.HEIC") with ["x.HEIC"].
  destruct (mkdir_parents_strict_creates td ["in"; "sub"] s1)
    as (s2 & E2 & Hd2 & Ho2 & Hg2);
    [discriminate | exact Htd | intros r Hr _; now apply Hfree |].
  unfold bind at 1. rewrite E2.
  assert (fs s2 !! ((td ++ ["in"; "sub"]) ++ ["x.HEIC"])%list = None) as Hfake.
  { destruct (Hg2 ((td ++ ["in"; "sub"]) ++ ["x.HEIC"])%list)
      as [E|[[Hpre _] _]].
    - rewrite E, <- app_assoc. now apply Hfree.
    - now apply prefix_snoc_not in Hpre. }
  unfold bind at 1.
  rewrite (write_bytes_fresh (td ++ ["in"; "sub"]) "x.HEIC" _ s2 Hd2 Hfake).
  set (s3 := set_fs s2 (<[((td ++ ["in"; "sub"]) ++ ["x.HEIC"])%list
                          := File (list_byte_of_string "not-heic")]> (fs s2))).
  assert (grown (fun k => td `prefix_of` k) (fs s2) (fs s3)) as Hg3.
  { apply grown_insert; [| exact Hfake].
    rewrite <- app_assoc. now apply prefix_app_r. }
  assert (make_output_path ((td ++ ["in"; "sub"]) ++ ["x.HEIC"]) (td ++ ["in"])
                           (td ++ ["out"])
          = Ok (td ++ ["out"; "sub"; "x.jpg"])%list) as Hmap.
  { replace ((td ++ ["in"; "sub"]) ++ ["x.HEIC"])%list
      with ((td ++ ["in"]) ++ ["sub"; "x.HEIC"])%list
      by (now rewrite <- !app_assoc).
    rewrite make_output_path_below; [| discriminate | discriminate].
    now rewrite <- app_assoc. }
  unfold bind at 1, lift. rewrite Hmap. cbv beta iota.
  assert (parent (td ++ ["out"; "sub"; "x.jpg"]) = (td ++ ["out"; "sub"])%list)
    as Hpar by (rewrite parent_app; [reflexivity | discriminate]).
  pose proof (grown_below _ _ td ["in"; "sub"] Htd Hg2) as Hg2'.
  assert (is_dir (fs s3) td = true) as Htd3.
  { apply (is_dir_grown _ _ _ _ Hg3). now apply (is_dir_grown _ _ _ _ Hg2'). }
  destruct (mkdir_parents_creates td ["out"; "sub"] s3 Htd3)
    as (s4 & E4 & Hd4).
  { intros r Hr Hpre.
    assert (exists r', r = "out" :: r') as [r' ->].
    { destruct r as [|x r']; [congruence |].
      apply prefix_cons_inv_1 in Hpre. subst x. eauto. }
    assert (fs s2 !! (td ++ "out" :: r')%list = None) as Hr2.
    { destruct (Hg2 (td ++ "out" :: r')%list) as [E|[[Hp2 _] _]].
      - rewrite E. now apply Hfree.
      - apply prefix_app_inv, prefix_cons_inv_1 in Hp2. discriminate. }
    unfold s3. simpl fs. rewrite lookup_insert_ne; [exact Hr2 |].
    rewrite <- app_assoc. intros Heq. apply app_inv_head in Heq. discriminate. }
  unfold bind at 1, ensure_parent. rewrite Hpar, E4.
  unfold path_exists. rewrite (is_dir_exists _ _ Hd4).
  exists s4. split; [reflexivity |].
  apply mkdir_parents_grown in E4 as [Ho4 Hg4].
  apply (grown_below _ _ td ["out"; "sub"] Htd3) in Hg4.
  split; [unfold s3 in Ho4; simpl in Ho4; congruence |].
  eapply grown_trans; [exact Hg2' |]. eapply grown_trans; eassumption.
Qed.

(** Taking the tree at [td] away again: back to the start. *)
Lemma rmtree_restores (td : Path) (m m4 : gmap Path node) :
  (forall k, td `prefix_of` k -> m !! k = None) ->
  grown (fun k => td `prefix_of` k) (<[td := Dir]> m) m4 ->
  rmtree td m4 = m.
Proof.
  intros Hfresh Hg. apply map_eq. intros k. apply option_eq. intros x.
  unfold rmtree. rewrite map_lookup_filter_Some. simpl. split.
  - intros [E Hk]. destruct (Hg k) as [E'|[Hpre _]]; [| contradiction].
    rewrite E' in E. rewrite lookup_insert_ne in E; [exact E |].
    intros ->. now apply Hk.
  - intros E.
    assert (~ td `prefix_of` k) as Hk
      by (intros Hpre; rewrite (Hfresh k Hpre) in E; discriminate).
    split; [| exact Hk].
    apply (grown_keeps _ _ _ _ _ Hg). rewrite lookup_insert_ne; [exact E |].
    intros ->. now apply Hk.
Qed.

(** X17.  The self-test passes in every environment, with or without
    [piexif] and HEIF support: run on a fresh temporary directory inside
    an existing directory it returns 0, prints [Self-test passed.] and
    leaves the filesystem exactly as it found it; and the script started
    with [--selftest] then exits with status 0 without opening a dialog
    or a message box. *)
Theorem selftest_passes (tmp : Path) (c : string) (s : State) :
  is_dir (fs s) tmp = true ->
  (forall k, (tmp ++ [c])%list `prefix_of` k -> fs s !! k = None) ->
  _selftest W (tmp ++ [c]) s
  = (mkState (fs s) (stdout s ++ ["Self-test passed."]), inr 0)
  /\ forall args d,
       arg_selftest args = true ->
       main W args (tmp ++ [c]) d s
       = (d, mkState (fs s) (stdout s ++ ["Self-test passed."]), SystemExit 0).
Proof.
  intros Htmp Hfresh.
  assert (_selftest W (tmp ++ [c]) s
          = (mkState (fs s) (stdout s ++ ["Self-test passed."]), inr 0)) as Hself.
  { unfold _selftest.
    assert (fs s !! (tmp ++ [c])%list = None) as Htd by (now apply Hfresh).
    rewrite (os_mkdir_fresh tmp c s Htmp Htd).
    set (s1 := set_fs s (<[(tmp ++ [c])%list := Dir]> (fs s))).
    destruct (selftest_body_passes (tmp ++ [c]) s1) as (s4 & E4 & Ho4 & Hg4).
    - apply (os_mkdir_ok _ s). now apply os_mkdir_fresh.
    - intros r Hr. unfold s1. simpl fs. rewrite lookup_insert_ne.
      + apply Hfresh. now apply prefix_app_r.
      + intros Heq. rewrite <- (app_nil_r (tmp ++ [c])) in Heq at 1.
        apply app_inv_head in Heq. congruence.
    - rewrite E4.
      rewrite (fix_orientation_passes W None (or_introl eq_refl)).
      rewrite print_ascii by reflexivity.
      simpl fs. simpl stdout.
      rewrite (rmtree_restores (tmp ++ [c]) (fs s) (fs s4) Hfresh Hg4).
      unfold s1 in Ho4. simpl in Ho4. now rewrite Ho4. }
  split; [exact Hself |].
  intros args d Hflag. unfold main. now rewrite Hflag, Hself.
Qed.

End SelfTest.

Lemma selftest_passes_witness :
  _selftest Sample.world_with_piexif ["in"; "scratch"]
            (Sample.start Sample.photos_fs)
  = (mkState Sample.photos_fs ["Self-test passed."], inr 0).
Proof.
  apply (selftest_passes Sample.world_with_piexif ["in"] "scratch"
           (Sample.start Sample.photos_fs)).
  - vm_compute. reflexivity.
  - intros k Hpre. apply eq_None_not_Some. intros [n Hn].
    apply elem_of_map_to_list in Hn.
    assert (k ∈ (map_to_list Sample.photos_fs).*1) as Hk
      by (apply list_elem_of_fmap; exists (k, n); auto).
    apply list_elem_of_In in Hk. vm_compute in Hk.
    destruct Hpre as [r ->].
    repeat (destruct Hk as [Hk|Hk]; [discriminate Hk |]). exact Hk.
Defined.

(** ** The folder dialogs and the entry point *)

(** X18.  [pick_folders] returns both folders or none.  When the first
    dialog is dismissed the second is not shown; when either is dismissed
    the result is [(None, None)]; otherwise it is the two picked folders.
    In no case is a message box shown. *)
Theorem pick_folders_both_or_none (d : Desk) :
  boxes (pick_folders d).1 = boxes d
  /\ (hd "" (picks d) = "" ->
      (pick_folders d).2 = (None, None)
      /\ asked (pick_folders d).1
         = (asked d ++ ["Select input folder with HEIC files"])%list)
  /\ (hd "" (picks d) <> "" -> hd "" (tl (picks d)) = "" ->
      (pick_folders d).2 = (None, None)
      /\ asked (pick_folders d).1
         = (asked d ++ ["Select input folder with HEIC files";
                        "Select output folder for JPG files"])%list)
  /\ (hd "" (picks d) <> "" -> hd "" (tl (picks d)) <> "" ->
      (pick_folders d).2
      = (Some (Path_of_string (hd "" (picks d))),
         Some (Path_of_string (hd "" (tl (picks d)))))
      /\ picks (pick_folders d).1 = tl (tl (picks d))
      /\ asked (pick_folders d).1
         = (asked d ++ ["Select input folder with HEIC files";
                        "Select output folder for JPG files"])%list).
Proof.
  unfold pick_folders, askdirectory. destruct d as [ps qs bs]. simpl.
  destruct ps as [|a [|b rest]]; simpl.
  - repeat split; try congruence; auto.
  - destruct (decide (a = "")) as [->|Ha]; simpl;
      repeat split; try congruence; try (now rewrite <- app_assoc); auto.
  - destruct (decide (a = "")) as [->|Ha]; simpl.
    { repeat split; try congruence; auto. }
    destruct (decide (b = "")) as [->|Hb]; simpl;
      repeat split; try congruence; try (now rewrite <- app_assoc); auto.
Qed.

Lemma pick_folders_both_or_none_witness :
  (pick_folders (mkDesk ["/in"; ""; "/later"] [] [])).2 = (None, None)
  /\ asked (pick_folders (mkDesk ["/in"; ""; "/later"] [] [])).1
     = ["Select input folder with HEIC files";
        "Select output folder for JPG files"].
Proof.
  apply (proj1 (proj2 (proj2 (pick_folders_both_or_none
                                (mkDesk ["/in"; ""; "/later"] [] []))))).
  - discriminate.
  - reflexivity.
Defined.

Section Main.

Variable W : World.


(** Once the input folder is known to be a directory, the [try] block is
    making the output folder and running the batch. *)
Lemma main_batch_valid (args : Args) (src dst : Path) (s : State) :
  is_dir (fs s) src = true ->
  main_batch W args src dst s
  = match mkdir_parents dst s with
    | (s1, Ok _) =>
        run_batch W src dst (clamp_quality (arg_quality args))
                  (arg_overwrite args) (negb (arg_no_orient_fix args)) s1
    | (s1, Raise e) => (s1, Raise e)
    end.
Proof.
  intros Hd. unfold main_batch, bind.
  rewrite Hd, (is_dir_exists _ _ Hd). simpl.
  now destruct (mkdir_parents dst s) as [s1 [[]|e]].
Qed.

Lemma main_picked (args : Args) (td : Path) (d : Desk) (s : State)
    (a b : string) (rest : list string) :
  arg_selftest args = false ->
  picks d = a :: b :: rest -> a <> "" -> b <> "" ->
  main W args td d s
  = let d2 := mkDesk rest
                     (asked d ++ ["Select input folder with HEIC files";
                                  "Select output folder for JPG files"])%list
                     (boxes d) in
    match main_batch W args (Path_of_string a) (Path_of_string b) s with
    | (s', Ok (total, done, errs)) =>
        (show (ShowInfo "HEIC → JPG"
                        (summary (newline ++ newline) total done errs)) d2,
         mkState (fs s') (stdout s' ++ [summary newline total done errs])%list,
         EndOfScript)
    | (s', Raise e) =>
        (show (ShowError "HEIC → JPG - Error" (exn_str e)) d2, s',
         Traceback (Raised e))
    end.
Proof.
  intros Hflag Hp Ha Hb. unfold main, pick_folders, askdirectory.
  rewrite Hflag, Hp. cbn [fst snd picks asked boxes].
  destruct (decide (a = "")); [contradiction |]. cbn [fst snd picks asked boxes].
  destruct (decide (b = "")); [contradiction |].
  rewrite <- app_assoc. cbn [app].
  destruct (main_batch W args (Path_of_string a) (Path_of_string b) s)
    as [s' [[[total done] errs]|e]]; [| reflexivity].
  now rewrite (print_ascii W _ s' (is_ascii_text_summary total done errs)).
Qed.

(** X19.  Dismissing either dialog cancels the run: the script prints
    [Cancelled.] and exits with status 0; the filesystem is untouched
    and no message box is shown. *)
Theorem main_cancelled (args : Args) (td : Path) (d : Desk) (s : State) :
  arg_selftest args = false ->
  hd "" (picks d) = "" \/ hd "" (tl (picks d)) = "" ->
  main W args td d s
  = ((pick_folders d).1, mkState (fs s) (stdout s ++ ["Cancelled."]),
     SystemExit 0)
  /\ boxes (pick_folders d).1 = boxes d.
Proof.
  intros Hflag Hcancel. unfold main. rewrite Hflag.
  rewrite (print_ascii W "Cancelled." s eq_refl).
  unfold pick_folders, askdirectory. destruct d as [ps qs bs]. simpl in *.
  destruct ps as [|a [|b rest]]; simpl in *.
  - auto.
  - destruct (decide (a = "")); simpl; auto.
  - destruct (decide (a = "")) as [->|Ha]; simpl; [auto |].
    destruct Hcancel as [->| ->]; [contradiction |]. simpl. auto.
Qed.

(** X20.  When the picked input folder is not a directory, the script
    shows one error box with the [Input directory not found] message and
    ends with that [FileNotFoundError]; the filesystem is untouched (the
    output folder is not made) and nothing is printed. *)
Theorem main_missing_input (args : Args) (td : Path) (d : Desk) (s : State)
    (a b : string) (rest : list string) :
  arg_selftest args = false ->
  picks d = a :: b :: rest -> a <> "" -> b <> "" ->
  is_dir (fs s) (Path_of_string a) = false ->
  main W args td d s
  = (mkDesk rest
            (asked d ++ ["Select input folder with HEIC files";
                         "Select output folder for JPG files"])%list
            (boxes d ++ [ShowError "HEIC → JPG - Error"
                           ("Input directory not found: "
                            ++ path_str (Path_of_string a))])%list,
     s,
     Traceback (Raised (FileNotFoundError
                          ("Input directory not found: "
                           ++ path_str (Path_of_string a))))).
Proof.
  intros Hflag Hp Ha Hb Hd.
  rewrite (main_picked args td d s a b rest Hflag Hp Ha Hb).
  unfold main_batch, bind. rewrite Hd, orb_true_r. reflexivity.
Qed.

(** X21.  The output folder is made before HEIF support is looked at:
    with a proper input folder and no HEIF support the script still
    creates the output folder, then shows the error box and ends with
    the [RuntimeError]; nothing is printed. *)
Theorem main_without_heif (args : Args) (td : Path) (d : Desk) (s s1 : State)
    (a b : string) (rest : list string) :
  arg_selftest args = false ->
  picks d = a :: b :: rest -> a <> "" -> b <> "" ->
  is_dir (fs s) (Path_of_string a) = true ->
  mkdir_parents (Path_of_string b) s = (s1, Ok tt) ->
  heif_available W = false ->
  exists msg d',
    main W args td d s = (d', s1, Traceback (Raised (RuntimeError msg)))
    /\ boxes d' = (boxes d ++ [ShowError "HEIC → JPG - Error" msg])%list
    /\ is_dir (fs s1) (Path_of_string b) = true
    /\ stdout s1 = stdout s.
Proof.
  intros Hflag Hp Ha Hb Hd Hmk Hheif.
  rewrite (main_picked args td d s a b rest Hflag Hp Ha Hb).
  rewrite (main_batch_valid args _ _ s Hd), Hmk.
  destruct (run_batch_not_ready W (Path_of_string a) (Path_of_string b)
              (clamp_quality (arg_quality args)) (arg_overwrite args)
              (negb (arg_no_orient_fix args)) s1 (or_introl Hheif)) as [msg ->].
  cbv zeta. eexists msg, _. split; [reflexivity |].
  split; [reflexivity |]. split.
  - unfold mkdir_parents in Hmk. apply mkdir_parents_rev_ok in Hmk.
    now rewrite rev_involutive in Hmk.
  - now apply mkdir_parents_grown in Hmk as [Ho _].
Qed.


End Main.

Lemma main_cancelled_witness :
  main Sample.world (mkArgs false 95 false false) ["tmp"; "t"]
       (mkDesk ["/in"; ""] [] []) (Sample.start Sample.photos_fs)
  = ((pick_folders (mkDesk ["/in"; ""] [] [])).1,
     mkState Sample.photos_fs ["Cancelled."], SystemExit 0)
  /\ boxes (pick_folders (mkDesk ["/in"; ""] [] [])).1 = [].
Proof.
  apply (main_cancelled Sample.world (mkArgs false 95 false false) ["tmp"; "t"]
           (mkDesk ["/in"; ""] [] []) (Sample.start Sample.photos_fs)).
  - reflexivity.
  - right. reflexivity.
Defined.

Lemma main_missing_input_witness :
  main Sample.world (mkArgs false 95 false false) ["tmp"; "t"]
       (mkDesk ["/missing"; "/out/new"] [] []) (Sample.start Sample.photos_fs)
  = (mkDesk [] ["Select input folder with HEIC files";
                "Select output folder for JPG files"]
            [ShowError "HEIC → JPG - Error"
                       "Input directory not found: /missing"],
     Sample.start Sample.photos_fs,
     Traceback (Raised (FileNotFoundError "Input directory not found: /missing"))).
Proof.
  apply (main_missing_input Sample.world (mkArgs false 95 false false)
           ["tmp"; "t"] (mkDesk ["/missing"; "/out/new"] [] [])
           (Sample.start Sample.photos_fs) "/missing" "/out/new" []);
    try reflexivity; discriminate.
Defined.

Lemma main_without_heif_witness :
  exists msg d',
    main Sample.world_without_heif (mkArgs false 95 false false) ["tmp"; "t"]
         (mkDesk ["/in"; "/out/new"] [] []) (Sample.start Sample.photos_fs)
    = (d', (mkdir_parents ["out"; "new"] (Sample.start Sample.photos_fs)).1,
       Traceback (Raised (RuntimeError msg)))
    /\ boxes d' = [ShowError "HEIC → JPG - Error" msg]
    /\ is_dir (fs (mkdir_parents ["out"; "new"]
                     (Sample.start Sample.photos_fs)).1) ["out"; "new"] = true
    /\ stdout (mkdir_parents ["out"; "new"] (Sample.start Sample.photos_fs)).1
       = [].
Proof.
  apply (main_without_heif Sample.world_without_heif
           (mkArgs false 95 false false) ["tmp"; "t"]
           (mkDesk ["/in"; "/out/new"] [] []) (Sample.start Sample.photos_fs)
           _ "/in" "/out/new" []);
    try discriminate; vm_compute; reflexivity.
Defined.

